(** * Internship recommender: the scoring engine of [backend/main.py]

    A shallow embedding of the rule-based matcher: the JSON records the
    service receives, the Python primitives the code applies to them, the
    flattening of listings, the field matchers, [score_item] and the
    ranking done by the [/recommend] handler.

    Modelling conventions.
    - A JSON document is a [value]; a Python [dict] with string keys is a
      [gmap string value].  Nothing in the modelled code depends on the
      insertion order of a dict.
    - Python exceptions are the [Raise] results of the [result] monad.
    - Python [str] is modelled by [string]; [lower] and [strip] act on the
      ASCII range (letters A-Z, the whitespace code points 9-13, 28-32),
      and a string is iterated character by character of that range.
    - Python [float] is modelled by exact rationals [Q]: additions,
      products and the quotient of the Jaccard ratio are exact, and
      [round(x, 4)] rounds the exact value to four decimals, ties to even.
      JSON numbers with a fraction are [VFloat] and carry a rational too. *)

From stdpp Require Import gmap strings list fin_maps sorting.
From Stdlib Require Import QArith Lqa DecimalString.

Set Warnings "-register-all".

(** ** JSON values and Python exceptions *)

Inductive value : Type :=
  | VNone
  | VBool (b : bool)
  | VInt (n : Z)
  | VFloat (q : Q)
  | VStr (s : string)
  | VList (l : list value)
  | VDict (d : gmap string value).

Inductive exn : Type :=
  | TypeError
  | AttributeError
  | HTTPException (status_code : Z).

Inductive result (A : Type) : Type :=
  | Ok (a : A)
  | Raise (e : exn).
Arguments Ok {A} a.
Arguments Raise {A} e.

#[global] Instance result_ret : MRet result := @Ok.
#[global] Instance result_bind : MBind result := fun A B f m =>
  match m with
  | Ok a => f a
  | Raise e => Raise e
  end.

(** ** Python primitives *)

Module Py.

(** Truth value of an object, as tested by [if], [or] and [bool()]. *)
Definition truthy (v : value) : bool :=
  match v with
  | VNone => false
  | VBool b => b
  | VInt n => negb (n =? 0)%Z
  | VFloat q => negb (Qeq_bool q 0)
  | VStr s => negb (String.eqb s "")
  | VList l => match l with [] => false | _ => true end
  | VDict d => negb (bool_decide (d = ∅))
  end.

(** [a or b] when evaluating [b] cannot raise. *)
Definition or (a b : value) : value := if truthy a then a else b.

(** [a or b] with a right operand that is evaluated, and may raise, only
    when [a] is falsy. *)
Definition or_else (a : value) (b : result value) : result value :=
  if truthy a then Ok a else b.

(** [d.get(k)] on a dict. *)
Definition get (d : gmap string value) (k : string) : value :=
  default VNone (d !! k).

(** [x.get(k)] on an arbitrary object: only dicts have the method. *)
Definition attr_get (x : value) (k : string) : result value :=
  match x with
  | VDict d => Ok (get d k)
  | _ => Raise AttributeError
  end.

Definition lower_ascii (a : Ascii.ascii) : Ascii.ascii :=
  let n := Ascii.N_of_ascii a in
  if ((65 <=? n) && (n <=? 90))%N then Ascii.ascii_of_N (n + 32) else a.

Fixpoint lower (s : string) : string :=
  match s with
  | EmptyString => EmptyString
  | String a s' => String (lower_ascii a) (lower s')
  end.

Definition isspace (a : Ascii.ascii) : bool :=
  let n := Ascii.N_of_ascii a in
  (((9 <=? n) && (n <=? 13)) || ((28 <=? n) && (n <=? 32)))%N.

Fixpoint lstrip (s : string) : string :=
  match s with
  | EmptyString => EmptyString
  | String a s' => if isspace a then lstrip s' else s
  end.

Fixpoint rstrip (s : string) : string :=
  match s with
  | EmptyString => EmptyString
  | String a s' =>
      match rstrip s' with
      | EmptyString => if isspace a then EmptyString else String a EmptyString
      | r => String a r
      end
  end.

Definition strip (s : string) : string := rstrip (lstrip s).

(** [x.lower().strip()] on an arbitrary object. *)
Definition lower_strip (x : value) : result string :=
  match x with
  | VStr s => Ok (strip (lower s))
  | _ => Raise AttributeError
  end.

Fixpoint chars (s : string) : list value :=
  match s with
  | EmptyString => []
  | String a s' => VStr (String a EmptyString) :: chars s'
  end.

(** [for x in v]: the elements of a list, the characters of a string,
    the keys of a dict; other objects are not iterable. *)
Definition iter (v : value) : result (list value) :=
  match v with
  | VList l => Ok l
  | VStr s => Ok (chars s)
  | VDict d => Ok (VStr <$> elements (dom d))
  | _ => Raise TypeError
  end.

(** [v >= n] for an integer literal [n]; [bool] is a subclass of [int]. *)
Definition ge_int (v : value) (n : Z) : result bool :=
  match v with
  | VBool b => Ok (n <=? (if b then 1 else 0))%Z
  | VInt m => Ok (n <=? m)%Z
  | VFloat q => Ok (Qle_bool (inject_Z n) q)
  | _ => Raise TypeError
  end.

(** [round(x, 4)]: nearest multiple of 1/10000, ties to the even one. *)
Definition round_half_even (x : Q) : Z :=
  let n := Qnum x in
  let d := Z.pos (Qden x) in
  let f := (n / d)%Z in
  let r2 := (2 * (n mod d))%Z in
  if (r2 <? d)%Z then f
  else if (d <? r2)%Z then (f + 1)%Z
  else if Z.even f then f else (f + 1)%Z.

Definition round4 (x : Q) : Q := round_half_even (x * 10000) # 10000.

End Py.

(** ** Normalisation and flattening *)

(** [_norm_text], line 26. *)
Definition _norm_text (x : value) : option string :=
  match x with
  | VStr s => Some (Py.strip (Py.lower s))
  | _ => None
  end.

(** [_to_flat], lines 30-38.  [dict(item)] is a copy, so the assignments
    below update the copy held in [flat]. *)
Definition _to_flat (item : gmap string value) : result (gmap string value) :=
  let loc := Py.or (Py.get item "location") (VDict ∅) in
  let flat := item in
  state ← Py.or_else (Py.get flat "state") (Py.attr_get loc "state");
  let flat := <["state" := state]> flat in
  district ← Py.or_else (Py.get flat "district") (Py.attr_get loc "district");
  let flat := <["district" := district]> flat in
  city ← Py.or_else (Py.get flat "city") (Py.attr_get loc "city");
  let flat := <["city" := city]> flat in
  let flat :=
    match flat !! "women_empowerment" with
    | None =>
        <["women_empowerment" :=
            VBool (Py.truthy (default (VBool false) (flat !! "gender_empowerment")))]> flat
    | Some _ => flat
    end in
  Ok flat.

(** ** Weights, lines 66-71 *)

Definition LOCATION_WEIGHT : Q := 0.25.
Definition SKILL_WEIGHT : Q := 0.35.
Definition EDUCATION_WEIGHT : Q := 0.20.
Definition SECTOR_WEIGHT : Q := 0.20.
Definition BONUS_WOMEN : Q := 0.05.
Definition BONUS_STIPEND : Q := 0.05.

(** ** Match reasons

    Every entry of a [why] list is one of eight f-string templates of the
    source.  A [reason] names the template and carries the object that is
    interpolated into it; [render] gives the text. *)

Inductive reason : Type :=
  | StateMatch (v : value)
  | DistrictMatch (v : value)
  | CityMatch (v : value)
  | SkillsOverlap (overlap : list string)
  | EducationFits (v : value)
  | SectorPreference (v : value)
  | WomenEmpowerment
  | StipendBonus (v : value).

(** The six categories of the evaluation order. *)
Inductive category : Type :=
  | Location | Skills | Education | Sector | WomenBonus | StipendBonusCat.

Definition category_of (r : reason) : category :=
  match r with
  | StateMatch _ | DistrictMatch _ | CityMatch _ => Location
  | SkillsOverlap _ => Skills
  | EducationFits _ => Education
  | SectorPreference _ => Sector
  | WomenEmpowerment => WomenBonus
  | StipendBonus _ => StipendBonusCat
  end.

Definition category_rank (c : category) : nat :=
  match c with
  | Location => 0 | Skills => 1 | Education => 2
  | Sector => 3 | WomenBonus => 4 | StipendBonusCat => 5
  end.

(** ** Field matchers *)

(** The set comprehension of lines 75-76:
    [{x.lower().strip() for x in xs if isinstance(x, str)}]. *)
Definition norm_set (xs : list value) : gset string :=
  list_to_set (omap _norm_text xs).

(** [jaccard_similarity], lines 74-81. *)
Definition jaccard_similarity (a b : value) : result Q :=
  xs ← Py.iter (Py.or a (VList []));
  let sa := norm_set xs in
  ys ← Py.iter (Py.or b (VList []));
  let sb := norm_set ys in
  if bool_decide (sa = ∅) || bool_decide (sb = ∅) then Ok 0
  else
    let inter := size (sa ∩ sb) in
    let union := size (sa ∪ sb) in
    Ok (if (union =? 0)%nat then 0
        else Z.of_nat inter # Pos.of_nat union).

(** [_norm_text(a) == _norm_text(b)]. *)
Definition norm_eq (a b : value) : bool :=
  bool_decide (_norm_text a = _norm_text b).

(** [compute_location_score], lines 84-101. *)
Definition compute_location_score (cand internship : gmap string value)
  : Q * list reason :=
  let why : list reason := [] in
  let score : Q := 0 in
  let '(score, why) :=
    if norm_eq (Py.get cand "state") (Py.get internship "state") then
      (score + LOCATION_WEIGHT * 0.4,
       if Py.truthy (Py.get internship "state")
       then why ++ [StateMatch (Py.get internship "state")] else why)
    else (score, why) in
  let '(score, why) :=
    if norm_eq (Py.get cand "district") (Py.get internship "district") then
      (score + LOCATION_WEIGHT * 0.35,
       if Py.truthy (Py.get internship "district")
       then why ++ [DistrictMatch (Py.get internship "district")] else why)
    else (score, why) in
  let '(score, why) :=
    if norm_eq (Py.get cand "city") (Py.get internship "city") then
      (score + LOCATION_WEIGHT * 0.25,
       if Py.truthy (Py.get internship "city")
       then why ++ [CityMatch (Py.get internship "city")] else why)
    else (score, why) in
  (score, why).

(** ** The scorer *)

Record scored : Type := Scored {
  score : Q;
  internship : gmap string value;
  why : list reason;
}.

(** Line 112: the skill contribution. *)
Definition skill_score (cand internship : gmap string value) : result Q :=
  j ← jaccard_similarity (Py.or (Py.get cand "skills") (VList []))
                         (Py.or (Py.get internship "skills") (VList []));
  Ok (j * SKILL_WEIGHT).

(** Lines 114-117: the sorted overlap of the two skill lists.  Unlike
    [jaccard_similarity], the comprehension has no [isinstance] filter. *)
Definition skills_overlap (cand internship : gmap string value)
  : result (list string) :=
  cs ← Py.iter (Py.or (Py.get cand "skills") (VList []));
  cs ← mapM Py.lower_strip cs;
  ls ← Py.iter (Py.or (Py.get internship "skills") (VList []));
  ls ← mapM Py.lower_strip ls;
  Ok (merge_sort String.le
        (elements ((list_to_set cs : gset string) ∩ list_to_set ls))).

(** Lines 122-123: [education and any(_norm_text(level) == education ...)].
    The levels are iterated only when the candidate's normalised education
    is a non-empty string. *)
Definition education_fits (cand internship : gmap string value) : result bool :=
  let education := _norm_text (Py.get cand "education") in
  match education with
  | Some e =>
      if negb (String.eqb e "") then
        levels ← Py.iter (Py.or (Py.get internship "education_levels") (VList []));
        Ok (existsb (fun level => bool_decide (_norm_text level = education)) levels)
      else Ok false
  | None => Ok false
  end.

(** [score_item], lines 104-144. *)
Definition score_item (cand internship : gmap string value) : result scored :=
  let total : Q := 0 in
  let why : list reason := [] in
  let '(location_score, location_why) := compute_location_score cand internship in
  let total := total + location_score in
  let why := why ++ location_why in
  sk ← skill_score cand internship;
  why ← (if negb (Qle_bool sk 0) then
           overlap ← skills_overlap cand internship;
           Ok (match overlap with
               | [] => why
               | _ => why ++ [SkillsOverlap overlap]
               end)
         else Ok why);
  let total := total + sk in
  fits ← education_fits cand internship;
  let '(total, why) :=
    if fits : bool
    then (total + EDUCATION_WEIGHT, why ++ [EducationFits (Py.get cand "education")])
    else (total, why) in
  let '(total, why) :=
    if norm_eq (Py.get cand "sector") (Py.get internship "sector") then
      (total + SECTOR_WEIGHT,
       if Py.truthy (Py.get internship "sector")
       then why ++ [SectorPreference (Py.get internship "sector")] else why)
    else (total, why) in
  let '(total, why) :=
    if Py.truthy (Py.get internship "women_empowerment")
    then (total + BONUS_WOMEN, why ++ [WomenEmpowerment])
    else (total, why) in
  rich ← Py.ge_int (Py.or (Py.get internship "stipend") (VInt 0)) 8000;
  let '(total, why) :=
    if rich : bool
    then (total + BONUS_STIPEND, why ++ [StipendBonus (Py.get internship "stipend")])
    else (total, why) in
  Ok {| score := Py.round4 total; internship := internship; why := why |}.

(** ** Ranking *)

(** [scored.sort(key=lambda item: item["score"], reverse=True)], line 208.
    The built-in sort is stable, also under [reverse=True]: it is modelled
    by a stable insertion sort, in which an entry moves in front of the
    entries that follow it only when its score is strictly higher. *)
Fixpoint insert_desc (x : scored) (l : list scored) : list scored :=
  match l with
  | [] => [x]
  | y :: l' =>
      if Qle_bool (score y) (score x) then x :: l
      else y :: insert_desc x l'
  end.

Definition sort_desc (l : list scored) : list scored :=
  foldr insert_desc [] l.

(** Lines 207-211: score every listing, sort, cut at [max(1, top_k)]. *)
Definition rank (candidate : gmap string value)
    (INTERNSHIPS : list (gmap string value)) (top_k : Z)
  : result (list scored) :=
  scored ← mapM (score_item candidate) INTERNSHIPS;
  let scored := sort_desc scored in
  let limit := Z.max 1 top_k in
  Ok (take (Z.to_nat limit) scored).

(** Lines 194-205: the candidate record built from the request body. *)
Definition candidate_of (payload : gmap string value)
  : result (gmap string value) :=
  let location := Py.or (Py.get payload "location") (VDict ∅) in
  state ← Py.or_else (Py.get payload "state") (Py.attr_get location "state");
  district ← Py.or_else (Py.get payload "district") (Py.attr_get location "district");
  city ← Py.or_else (Py.get payload "city") (Py.attr_get location "city");
  Ok (list_to_map
        [("name", Py.get payload "name");
         ("gender", Py.get payload "gender");
         ("education", Py.or (Py.get payload "education") (Py.get payload "education_level"));
         ("skills", Py.or (Py.get payload "skills") (VList []));
         ("sector", Py.or (Py.get payload "sector") (Py.get payload "sector_interest"));
         ("state", state);
         ("district", district);
         ("city", city)]).

(** [recommend], lines 189-211.  The module-level catalog [INTERNSHIPS]
    is passed explicitly; [top_k] is the integer query parameter. *)
Definition recommend (INTERNSHIPS : list (gmap string value))
    (payload : gmap string value) (top_k : Z) : result (list scored) :=
  match INTERNSHIPS with
  | [] => Raise (HTTPException 500)
  | _ =>
      candidate ← candidate_of payload;
      rank candidate INTERNSHIPS top_k
  end.

(** Line 42: the catalog served is the flattened raw catalog. *)
Definition load_catalog (INTERNSHIPS_RAW : list (gmap string value))
  : result (list (gmap string value)) :=
  mapM _to_flat INTERNSHIPS_RAW.

(** ** Text of the reasons *)

Definition decimal (n : Z) : string :=
  DecimalString.NilZero.string_of_int (Z.to_int n).

(** [str(v)] as an f-string interpolates it, for the objects whose text
    does not depend on the float printer or on dict order. *)
Definition str (v : value) : option string :=
  match v with
  | VNone => Some "None"
  | VBool b => Some (if b then "True" else "False")
  | VInt n => Some (decimal n)
  | VStr s => Some s
  | _ => None
  end.

Definition render (r : reason) : option string :=
  match r with
  | StateMatch v => s ← str v; Some ("State match: " +:+ s)
  | DistrictMatch v => s ← str v; Some ("District match: " +:+ s)
  | CityMatch v => s ← str v; Some ("City match: " +:+ s)
  | SkillsOverlap overlap =>
      Some ("Skills overlap: " +:+ String.concat ", " overlap)
  | EducationFits v => s ← str v; Some ("Education fits: " +:+ s)
  | SectorPreference v => s ← str v; Some ("Sector preference: " +:+ s)
  | WomenEmpowerment => Some "Supports women empowerment"
  | StipendBonus v => s ← str v; Some ("Stipend ≥ ₹8000 (₹" +:+ s +:+ ")")
  end.


(** ** Catalog options, lines 152-186

    [options] collects the distinct states, sectors, districts per state
    and cities per (state, district) of the catalog.  The values it
    collects are modelled for text: a field is either falsy, and then
    skipped by the [if] that guards it, or a string.  A truthy field of
    another type leaves the fragment modelled here (its treatment depends
    on hashing, on the ordering of mixed types and on the float printer),
    and the model then answers [None]. *)

Inductive field : Type :=
  | Falsy
  | Text (s : string)
  | Untyped.

Definition field_of (v : value) : field :=
  if Py.truthy v then
    match v with
    | VStr s => Text s
    | _ => Untyped
    end
  else Falsy.

(** [sorted(values)] on a set of strings. *)
Definition sorted_strings (values : gset string) : list string :=
  merge_sort String.le (elements values).

Module Options.

(** The four local collections of the loop.  [cities_by_state_district]
    is a dict keyed by pairs; its insertion order is kept, because the
    response is built by iterating over it. *)
Record locals : Type := Locals {
  states : gset string;
  sectors : gset string;
  districts_by_state : gmap string (gset string);
  cities_by_state_district : list (string * string * gset string);
}.

Definition init : locals := Locals ∅ ∅ ∅ [].

(** [d.setdefault(k, set())] on the two dicts. *)
Definition setdefault (k : string) (d : gmap string (gset string))
  : gmap string (gset string) :=
  match d !! k with
  | Some _ => d
  | None => <[k := ∅]> d
  end.

Definition setdefault_pair (key : string * string)
    (d : list (string * string * gset string))
  : list (string * string * gset string) :=
  if bool_decide (key ∈ d.*1) then d else d ++ [(key, ∅)].

(** [d[key].add(x)] on the dict keyed by pairs. *)
Definition add_pair (key : string * string) (x : string)
    (d : list (string * string * gset string))
  : list (string * string * gset string) :=
  (λ e, if bool_decide (e.1 = key) then (e.1, e.2 ∪ {[x]}) else e) <$> d.

(** The body of the loop, lines 160-176. *)
Definition step (internship : gmap string value) (v : locals) : option locals :=
  let state := Py.get internship "state" in
  let district := Py.get internship "district" in
  let city := Py.get internship "city" in
  let sector := Py.get internship "sector" in
  v ← match field_of state with
      | Falsy => Some v
      | Untyped => None
      | Text state =>
          let states := states v ∪ {[state]} in
          let districts_by_state := setdefault state (districts_by_state v) in
          match field_of district with
          | Falsy =>
              Some (Locals states (sectors v) districts_by_state
                      (cities_by_state_district v))
          | Untyped => None
          | Text district =>
              let districts_by_state :=
                alter (λ ds, ds ∪ {[district]}) state districts_by_state in
              let key := (state, district) in
              let cities_by_state_district :=
                setdefault_pair key (cities_by_state_district v) in
              match field_of city with
              | Falsy =>
                  Some (Locals states (sectors v) districts_by_state
                          cities_by_state_district)
              | Untyped => None
              | Text city =>
                  Some (Locals states (sectors v) districts_by_state
                          (add_pair key city cities_by_state_district))
              end
          end
      end;
  match field_of sector with
  | Falsy => Some v
  | Untyped => None
  | Text sector =>
      Some (Locals (states v) (sectors v ∪ {[sector]}) (districts_by_state v)
              (cities_by_state_district v))
  end.

(** The loop of line 159 over the catalog. *)
Definition loop (INTERNSHIPS : list (gmap string value)) : option locals :=
  foldl (λ acc internship, acc ≫= step internship) (Some init) INTERNSHIPS.

End Options.

(** The response of [options], lines 178-186. *)
Record options_response : Type := OptionsResponse {
  states : list string;
  sectors : list string;
  districtsByState : gmap string (list string);
  citiesByStateDistrict : gmap string (list string);
}.

(** The key [f"{state}||{district}"]. *)
Definition city_key (state district : string) : string :=
  state +:+ "||" +:+ district.

(** [options], lines 152-186, on the catalog [INTERNSHIPS].  In the dict
    comprehension of lines 182-185 a later pair overwrites an earlier
    one that formats to the same key. *)
Definition options (INTERNSHIPS : list (gmap string value))
  : option options_response :=
  v ← Options.loop INTERNSHIPS;
  Some {|
    states := sorted_strings (Options.states v);
    sectors := sorted_strings (Options.sectors v);
    districtsByState := sorted_strings <$> Options.districts_by_state v;
    citiesByStateDistrict :=
      foldl (λ d e, <[city_key e.1.1 e.1.2 := sorted_strings e.2]> d) ∅
        (Options.cities_by_state_district v);
  |}.
(** * Specification vocabulary *)

Definition bonus (b : bool) (w : Q) : Q := if b then w else 0.
Definition opt_reason (b : bool) (r : reason) : list reason :=
  if b then [r] else [].
Definition skills_reason (overlap : list string) : list reason :=
  match overlap with
  | [] => []
  | _ => [SkillsOverlap overlap]
  end.


Definition is_str (v : value) : bool :=
  match v with VStr _ => true | _ => false end.

(** The [skills] of a record are well typed: missing, null, empty, or a
    list of strings. *)
Definition skills_wf (d : gmap string value) : bool :=
  match Py.or (Py.get d "skills") (VList []) with
  | VList l => forallb is_str l
  | _ => false
  end.

(** A candidate record whose scored fields have the types of the request
    schema. *)
Definition candidate_wf (cand : gmap string value) : bool := skills_wf cand.

(** A listing whose scored fields have the types of the catalog schema:
    [skills] as above, [education_levels] missing, null or a list,
    [stipend] missing, null or a number. *)
Definition listing_wf (i : gmap string value) : bool :=
  skills_wf i
  && match Py.or (Py.get i "education_levels") (VList []) with
     | VList _ => true
     | _ => false
     end
  && match Py.or (Py.get i "stipend") (VInt 0) with
     | VBool _ | VInt _ | VFloat _ => true
     | _ => false
     end.

(** The nested [location] of a record is well typed: missing, null, or an
    object. *)
Definition location_wf (d : gmap string value) : bool :=
  match Py.or (Py.get d "location") (VDict ∅) with
  | VDict _ => true
  | _ => false
  end.

(** The nested location object a record resolves its fallbacks from. *)
Definition nested (d : gmap string value) (k : string) : value :=
  match Py.or (Py.get d "location") (VDict ∅) with
  | VDict loc => Py.get loc k
  | _ => VNone
  end.

(** The normalised skill set of a record, lines 75-76 applied to its
    [skills]. *)
Definition skill_set (d : gmap string value) : result (gset string) :=
  xs ← Py.iter (Py.or (Py.get d "skills") (VList []));
  Ok (norm_set xs).

(** Descending order of scores, and the entries of a given score. *)
Definition desc (a b : scored) : Prop := (score b <= score a)%Q.

#[global] Instance Qeq_decision : RelDecision Qeq := Qeq_dec.

Definition with_score (s : Q) (l : list scored) : list scored :=
  filter (λ r, score r == s) l.

#[global] Instance result_fmap : FMap result := fun A B f m =>
  match m with
  | Ok a => Ok (f a)
  | Raise e => Raise e
  end.

Definition location_keys : list string := ["state"; "district"; "city"].

(** What the [or] of lines 33-35 and 202-204 resolves a location field
    to: the flat value when it is truthy, the nested one otherwise. *)
Definition resolved (d : gmap string value) (k : string) : value :=
  if Py.truthy (Py.get d k) then Py.get d k else nested d k.

Definition category_le (a b : reason) : Prop :=
  category_rank (category_of a) ≤ category_rank (category_of b).

(** ** Scenarios *)

Module Scenario.

(** The worked example of the specification. *)
Definition candidate : gmap string value :=
  list_to_map
    [("state", VStr "Maharashtra"); ("district", VStr "Pune");
     ("city", VStr "Pune"); ("skills", VList [VStr "React"; VStr "CSS"]);
     ("education", VStr "B.Tech"); ("sector", VStr "Technology")].

Definition listing : gmap string value :=
  list_to_map
    [("state", VStr "Maharashtra"); ("district", VStr "Pune");
     ("city", VStr "Pune");
     ("skills", VList [VStr "React"; VStr "TypeScript"]);
     ("education_levels", VList [VStr "B.Tech"]);
     ("sector", VStr "Technology");
     ("women_empowerment", VBool true); ("stipend", VInt 10000)].

Definition reasons : list reason :=
  [StateMatch (VStr "Maharashtra"); DistrictMatch (VStr "Pune");
   CityMatch (VStr "Pune"); SkillsOverlap ["react"];
   EducationFits (VStr "B.Tech"); SectorPreference (VStr "Technology");
   WomenEmpowerment; StipendBonus (VInt 10000)].

(** A candidate and a listing with nothing in common: different states,
    disjoint skills, and neither names a district, a city or a sector. *)
Definition stranger : gmap string value :=
  list_to_map [("state", VStr "Goa"); ("skills", VList [VStr "React"])].

Definition remote_listing : gmap string value :=
  list_to_map [("state", VStr "Kerala"); ("skills", VList [VStr "Python"])].

(** A listing whose flat [state] is present but empty, with a nested
    location. *)
Definition blank_state_listing : gmap string value :=
  list_to_map
    [("state", VStr "");
     ("location", VDict (list_to_map [("state", VStr "Goa")]))].

(** A record whose [location] is a string, and that has no state,
    district or city at the top level. *)
Definition string_location_listing : gmap string value :=
  list_to_map
    [("title", VStr "Intern"); ("location", VStr "Pune, India")].

End Scenario.


(** ** Vocabulary of the further properties *)

(** The normalised set [jaccard_similarity] builds from an argument. *)
Definition normalised (a : value) : result (gset string) :=
  xs ← Py.iter (Py.or a (VList []));
  Ok (norm_set xs).

(** The candidate fields [score_item] reads. *)
Definition scored_keys : list string :=
  ["state"; "district"; "city"; "skills"; "education"; "sector"].

(** Exceptions of the Python runtime, as opposed to the HTTP error the
    handler raises itself. *)
Definition is_runtime_error (e : exn) : Prop :=
  match e with
  | TypeError | AttributeError => True
  | HTTPException _ => False
  end.

(** A string that does not start with whitespace. *)
Definition starts_clean (s : string) : Prop :=
  match s with
  | EmptyString => True
  | String a _ => Py.isspace a = false
  end.

(** What a reason in the [why] list of [score_item cand i] stands on. *)
Definition justified (cand i : gmap string value) (x : reason) : Prop :=
  match x with
  | StateMatch v =>
      v = Py.get i "state" ∧ Py.truthy v = true
      ∧ _norm_text (Py.get cand "state") = _norm_text v
  | DistrictMatch v =>
      v = Py.get i "district" ∧ Py.truthy v = true
      ∧ _norm_text (Py.get cand "district") = _norm_text v
  | CityMatch v =>
      v = Py.get i "city" ∧ Py.truthy v = true
      ∧ _norm_text (Py.get cand "city") = _norm_text v
  | SkillsOverlap overlap =>
      overlap ≠ [] ∧ skills_overlap cand i = Ok overlap
  | EducationFits v =>
      v = Py.get cand "education" ∧ education_fits cand i = Ok true
  | SectorPreference v =>
      v = Py.get i "sector" ∧ Py.truthy v = true
      ∧ _norm_text (Py.get cand "sector") = _norm_text v
  | WomenEmpowerment => Py.truthy (Py.get i "women_empowerment") = true
  | StipendBonus v =>
      v = Py.get i "stipend" ∧ Py.truthy v = true
      ∧ Py.ge_int v 8000 = Ok true
  end.

(** The keys [_to_flat] writes. *)
Definition derived_keys : list string :=
  ["state"; "district"; "city"; "women_empowerment"].

(** What a listing contributes to the option sets. *)
Definition has_state (i : gmap string value) (s : string) : Prop :=
  field_of (Py.get i "state") = Text s.

Definition has_district (i : gmap string value) (s d : string) : Prop :=
  has_state i s ∧ field_of (Py.get i "district") = Text d.

Definition has_city (i : gmap string value) (s d c : string) : Prop :=
  has_district i s d ∧ field_of (Py.get i "city") = Text c.

Definition has_sector (i : gmap string value) (x : string) : Prop :=
  field_of (Py.get i "sector") = Text x.

(** The fields [options] collects from a listing are text or falsy. *)
Definition text_fields (i : gmap string value) : Prop :=
  field_of (Py.get i "sector") ≠ Untyped
  ∧ match field_of (Py.get i "state") with
    | Falsy => True
    | Untyped => False
    | Text _ =>
        match field_of (Py.get i "district") with
        | Falsy => True
        | Untyped => False
        | Text _ => field_of (Py.get i "city") ≠ Untyped
        end
    end.

(** Membership in the two dicts of sets that [options] builds. *)
Definition district_in (m : gmap string (gset string)) (s d : string) : Prop :=
  ∃ ds, m !! s = Some ds ∧ d ∈ ds.

Definition city_in (l : list (string * string * gset string))
    (s d c : string) : Prop :=
  ∃ cs, ((s, d), cs) ∈ l ∧ c ∈ cs.

(** No two (state, district) pairs of the catalog format to the same
    key of [citiesByStateDistrict]. *)
Definition city_keys_distinct (L : list (gmap string value)) : Prop :=
  ∀ i j s d s' d',
    i ∈ L → j ∈ L → has_district i s d → has_district j s' d' →
    city_key s d = city_key s' d' → s = s' ∧ d = d'.

(** The dict comprehension of lines 182-185. *)
Definition cities_response (l : list (string * string * gset string))
  : gmap string (list string) :=
  foldl (λ d e, <[city_key e.1.1 e.1.2 := sorted_strings e.2]> d) ∅ l.

(** Strings of ASCII code points: on them [Py.lower], [Py.strip] and
    [Py.chars] are [str.lower], [str.strip] and the iteration over a
    [str]. *)
Definition ascii_char (a : Ascii.ascii) : bool :=
  (Ascii.N_of_ascii a <? 128)%N.

Fixpoint is_ascii (s : string) : bool :=
  match s with
  | EmptyString => true
  | String a s' => ascii_char a && is_ascii s'
  end.

(** [_to_flat(item)] on an arbitrary JSON value: line 31 calls
    [item.get], which only objects have. *)
Definition flatten_item (item : value) : result (gmap string value) :=
  match item with
  | VDict d => _to_flat d
  | _ => Raise AttributeError
  end.

(** Line 42 on an arbitrary parsed document [INTERNSHIPS_RAW]. *)
Definition flatten_document (INTERNSHIPS_RAW : value)
  : result (list (gmap string value)) :=
  items ← Py.iter INTERNSHIPS_RAW;
  mapM flatten_item items.

(** An item of the document on which [_to_flat] raises. *)
Definition unflattenable (item : value) : Prop :=
  match item with
  | VDict d =>
      location_wf d = false
      ∧ ∃ k, k ∈ location_keys ∧ Py.truthy (Py.get d k) = false
  | _ => True
  end.

(** The pair [p] has a listing in [L] that comes before every listing of
    the pair [q]. *)
Definition pair_before (L : list (gmap string value))
    (p q : string * string) : Prop :=
  ∃ L1 j L2,
    L = L1 ++ j :: L2 ∧ has_district j p.1 p.2
    ∧ ∀ i, i ∈ L1 → ¬ has_district i q.1 q.2.

(** * Properties *)

(** ** The result monad *)

Lemma bind_Ok {A B} (m : result A) (f : A → result B) b :
  m ≫= f = Ok b ↔ ∃ a, m = Ok a ∧ f a = Ok b.
Proof.
  destruct m as [a|e]; simpl; split.
  - intros H. exists a. auto.
  - intros (a' & Ha & H). congruence.
  - discriminate.
  - intros (a' & Ha & _). discriminate.
Qed.

Section result_monad.
Context {A B : Type}.
Implicit Types (f : A → result B) (m : result A).

Lemma mapM_Ok f l out :
  mapM f l = Ok out ↔ Forall2 (λ x y, f x = Ok y) l out.
Proof.
  revert out. induction l as [|x l IH]; intros out; simpl.
  - split.
    + intros [= <-]. constructor.
    + intros H. inversion H. reflexivity.
  - rewrite bind_Ok. split.
    + intros (y & Hy & H). apply bind_Ok in H as (k & Hk & [= <-]).
      constructor; [done|]. by apply IH.
    + intros H. inversion H as [|? y ? k Hy Hk]; subst.
      exists y. split; [done|]. apply bind_Ok. exists k.
      split; [by apply IH|done].
Qed.

Lemma mapM_Ok_length f l out : mapM f l = Ok out → length out = length l.
Proof. intros H%mapM_Ok. symmetry. by eapply Forall2_length. Qed.

Lemma mapM_total f l :
  Forall (λ x, ∃ y, f x = Ok y) l → ∃ out, mapM f l = Ok out.
Proof.
  induction 1 as [|x l [y Hy] _ [k Hk]].
  - by exists [].
  - exists (y :: k). apply mapM_Ok. constructor; [done|]. by apply mapM_Ok.
Qed.
End result_monad.

(** ** Rounding *)

Section rounding.
Open Scope Q_scope.

Lemma round_half_even_nonneg x : 0 <= x → (0 <= Py.round_half_even x)%Z.
Proof.
  destruct x as [n d]. unfold Qle, Py.round_half_even. simpl. intros Hn.
  assert (0 <= n)%Z as Hn' by lia.
  assert (0 <= n / Z.pos d)%Z by (apply Z.div_pos; lia).
  repeat case_match; lia.
Qed.

Lemma round_half_even_le x (k : Z) :
  x <= inject_Z k → (Py.round_half_even x <= k)%Z.
Proof.
  destruct x as [n d]. unfold Qle, Py.round_half_even. simpl. intros Hn.
  assert (n <= k * Z.pos d)%Z as Hn' by lia.
  pose proof (Z.div_mod n (Z.pos d) ltac:(lia)) as Hdm.
  pose proof (Z.mod_pos_bound n (Z.pos d) ltac:(lia)) as Hm.
  assert (n / Z.pos d <= k)%Z as Hf.
  { apply Z.div_le_upper_bound; lia. }
  destruct (decide (n / Z.pos d = k)%Z) as [Heq|Hne].
  - assert (n mod Z.pos d = 0)%Z by nia.
    repeat case_match; lia.
  - repeat case_match; lia.
Qed.

Lemma round4_bounds total :
  0 <= total <= 1.10 → 0 <= Py.round4 total <= 1.10.
Proof.
  intros [Hlo Hhi]. unfold Py.round4.
  assert (0 <= Py.round_half_even (total * 10000))%Z as H0.
  { apply round_half_even_nonneg. lra. }
  assert (Py.round_half_even (total * 10000) <= 11000)%Z as H1.
  { apply round_half_even_le. unfold inject_Z. lra. }
  unfold Qle. simpl. lia.
Qed.
End rounding.

(** ** Bounds of the field matchers *)

Section matcher_bounds.
Open Scope Q_scope.

Lemma jaccard_similarity_bounds a b j :
  jaccard_similarity a b = Ok j → 0 <= j <= 1.
Proof.
  unfold jaccard_similarity. intros H.
  apply bind_Ok in H as (xs & _ & H). apply bind_Ok in H as (ys & _ & H).
  simpl in H. case_match; [simplify_eq; lra|].
  case_match; simplify_eq; [lra|].
  set (sa := norm_set xs) in *. set (sb := norm_set ys) in *.
  assert (size (sa ∩ sb) ≤ size (sa ∪ sb))%nat as Hle.
  { apply subseteq_size. intros x [Hx _]%elem_of_intersection.
    apply elem_of_union. by left. }
  assert (size (sa ∪ sb) ≠ 0)%nat as Hne by by apply Nat.eqb_neq.
  assert (Z.pos (Pos.of_nat (size (sa ∪ sb))) = Z.of_nat (size (sa ∪ sb))) as Hpos.
  { rewrite <- positive_nat_Z. by rewrite Nat2Pos.id. }
  unfold Qle. simpl. rewrite Hpos. lia.
Qed.

Lemma skill_score_bounds cand i sk :
  skill_score cand i = Ok sk → 0 <= sk <= 0.35.
Proof.
  unfold skill_score. intros H. apply bind_Ok in H as (j & Hj & [= <-]).
  apply jaccard_similarity_bounds in Hj. unfold SKILL_WEIGHT. lra.
Qed.

Lemma compute_location_score_bounds cand i :
  0 <= (compute_location_score cand i).1 <= 0.25.
Proof.
  unfold compute_location_score, LOCATION_WEIGHT.
  repeat (case_match; simplify_eq/=); lra.
Qed.

Lemma compute_location_score_category cand i :
  Forall (λ r, category_of r = Location) (compute_location_score cand i).2.
Proof.
  unfold compute_location_score.
  repeat (case_match; simplify_eq/=); repeat constructor.
Qed.
End matcher_bounds.

(** ** The shape of a scored result *)

Section score_item_shape.
Open Scope Q_scope.

(** [score_item] returns exactly when its three fallible stages do, and
    its result is then the rounded sum of the six contributions with the
    reasons of the six stages concatenated in that order. *)
Lemma score_item_inv cand i r :
  score_item cand i = Ok r →
  ∃ sk so fits rich total,
    skill_score cand i = Ok sk ∧
    (so = [] ∨ (0 < sk ∧ skills_overlap cand i = Ok so)) ∧
    education_fits cand i = Ok fits ∧
    Py.ge_int (Py.or (Py.get i "stipend") (VInt 0)) 8000 = Ok rich ∧
    total == (compute_location_score cand i).1 + sk
             + bonus fits EDUCATION_WEIGHT
             + bonus (norm_eq (Py.get cand "sector") (Py.get i "sector")) SECTOR_WEIGHT
             + bonus (Py.truthy (Py.get i "women_empowerment")) BONUS_WOMEN
             + bonus rich BONUS_STIPEND ∧
    r = {| score := Py.round4 total;
           internship := i;
           why := (compute_location_score cand i).2
                  ++ skills_reason so
                  ++ opt_reason fits (EducationFits (Py.get cand "education"))
                  ++ opt_reason (norm_eq (Py.get cand "sector") (Py.get i "sector")
                                 && Py.truthy (Py.get i "sector"))
                       (SectorPreference (Py.get i "sector"))
                  ++ opt_reason (Py.truthy (Py.get i "women_empowerment")) WomenEmpowerment
                  ++ opt_reason rich (StipendBonus (Py.get i "stipend")) |}.
Proof.
  unfold score_item.
  destruct (compute_location_score cand i) as [ls lw]. simpl.
  intros H. apply bind_Ok in H as (sk & Hsk & H).
  apply bind_Ok in H as (why1 & Hwhy & H).
  apply bind_Ok in H as (fits & Hfits & H).
  assert (∃ so, why1 = lw ++ skills_reason so ∧
                (so = [] ∨ (0 < sk ∧ skills_overlap cand i = Ok so)))
    as (so & -> & Hso).
  { destruct (Qle_bool sk 0) eqn:Hle; simpl in Hwhy.
    - injection Hwhy as <-. exists []. rewrite app_nil_r. auto.
    - apply bind_Ok in Hwhy as (ov & Hov & [= <-]).
      assert (0 < sk).
      { apply Qnot_le_lt. intros Hc%Qle_bool_iff. congruence. }
      exists ov. split; [destruct ov; simpl; by rewrite ?app_nil_r|]. auto. }
  exists sk, so, fits.
  destruct fits, (norm_eq (Py.get cand "sector") (Py.get i "sector")),
    (Py.truthy (Py.get i "sector")), (Py.truthy (Py.get i "women_empowerment"));
    simpl in H; apply bind_Ok in H as (rich & Hrich & H);
    exists rich; destruct rich; injection H as <-;
    eexists; (split_and!; [done|done|done|done| |
      simpl; rewrite <- ?app_assoc; simpl; rewrite ?app_nil_r; reflexivity]);
    simpl; unfold bonus; ring.
Qed.
End score_item_shape.

Lemma opt_reason_elem b x y : y ∈ opt_reason b x → y = x.
Proof.
  destruct b; simpl.
  - by intros ->%list_elem_of_singleton.
  - by intros ?%elem_of_nil.
Qed.

(** ** The stable descending sort *)

Section sorting.
Open Scope Q_scope.

#[local] Instance desc_trans : Transitive desc.
Proof. intros a b c Hab Hbc. unfold desc in *. lra. Qed.

Lemma insert_desc_perm x l : insert_desc x l ≡ₚ x :: l.
Proof.
  induction l as [|y l IH]; simpl; [done|].
  case_match; [done|]. rewrite IH. apply Permutation_swap.
Qed.

Lemma sort_desc_perm l : sort_desc l ≡ₚ l.
Proof.
  induction l as [|x l IH]; simpl; [done|].
  rewrite insert_desc_perm. by rewrite IH.
Qed.

Lemma sort_desc_length l : length (sort_desc l) = length l.
Proof. apply Permutation_length, sort_desc_perm. Qed.

Lemma insert_desc_sorted x l :
  StronglySorted desc l → StronglySorted desc (insert_desc x l).
Proof.
  induction 1 as [|y l Hl IH Hy]; simpl.
  - repeat constructor.
  - destruct (Qle_bool (score y) (score x)) eqn:Hle.
    + apply Qle_bool_iff in Hle.
      constructor; [by constructor|].
      constructor; [done|].
      eapply Forall_impl; [exact Hy|]. intros z Hz. unfold desc in *. lra.
    + assert (score x < score y) as Hlt.
      { apply Qnot_le_lt. intros Hc%Qle_bool_iff. congruence. }
      constructor; [done|].
      rewrite insert_desc_perm. constructor; [|done].
      unfold desc. lra.
Qed.

Lemma sort_desc_sorted l : StronglySorted desc (sort_desc l).
Proof.
  induction l as [|x l IH]; simpl; [constructor|].
  by apply insert_desc_sorted.
Qed.

(** Stability: inserting never reorders entries of equal score. *)
Lemma insert_desc_with_score s x l :
  with_score s (insert_desc x l) = with_score s (x :: l).
Proof.
  unfold with_score. induction l as [|y l IH]; simpl; [done|].
  destruct (Qle_bool (score y) (score x)) eqn:Hle; [done|].
  assert (score x < score y) as Hlt.
  { apply Qnot_le_lt. intros Hc%Qle_bool_iff. congruence. }
  rewrite (filter_cons _ y), IH, !filter_cons.
  destruct (decide (score x == s)) as [Hx|Hx];
    destruct (decide (score y == s)) as [Hy|Hy]; try done.
  rewrite Hx, Hy in Hlt. by apply Qlt_irrefl in Hlt.
Qed.

Lemma sort_desc_stable s l : with_score s (sort_desc l) = with_score s l.
Proof.
  induction l as [|x l IH]; simpl; [done|].
  rewrite insert_desc_with_score. unfold with_score in *.
  by rewrite !filter_cons, IH.
Qed.

Lemma with_score_take s n l :
  with_score s (take n l) `prefix_of` with_score s l.
Proof.
  unfold with_score. rewrite <- (take_drop n l) at 2.
  rewrite filter_app. by apply prefix_app_r.
Qed.

Lemma StronglySorted_take {A} (R : relation A) n l :
  StronglySorted R l → StronglySorted R (take n l).
Proof.
  rewrite <- (take_drop n l) at 1. apply StronglySorted_app_1_l.
Qed.

Lemma StronglySorted_adjacent {A} (R : relation A) l i a b :
  StronglySorted R l → l !! i = Some a → l !! S i = Some b → R a b.
Proof.
  intros Hl. revert i. induction Hl as [|x l Hl IH Hx]; intros i Ha Hb.
  - done.
  - destruct i as [|i]; simpl in *.
    + injection Ha as <-. rewrite Forall_forall in Hx.
      apply Hx. by eapply list_elem_of_lookup_2.
    + by eapply IH.
Qed.
End sorting.

(** ** When the scorer returns *)

Section totality.

Lemma or_list_idem v :
  Py.or (Py.or v (VList [])) (VList []) = Py.or v (VList []).
Proof. unfold Py.or. by destruct (Py.truthy v) eqn:Hv; simpl; rewrite ?Hv. Qed.

Lemma skills_wf_list d :
  skills_wf d = true →
  ∃ l, Py.or (Py.get d "skills") (VList []) = VList l ∧ forallb is_str l = true.
Proof. unfold skills_wf. case_match; try done. eauto. Qed.

Lemma mapM_lower_strip_total l :
  forallb is_str l = true → ∃ out, mapM Py.lower_strip l = Ok out.
Proof.
  intros Hl. apply mapM_total. apply Forall_forall. intros x Hx.
  rewrite forallb_forall in Hl. apply list_elem_of_In, Hl in Hx.
  destruct x; try done. simpl. eauto.
Qed.

Lemma skill_set_jaccard cand i sa sb :
  skill_set cand = Ok sa → skill_set i = Ok sb →
  jaccard_similarity (Py.or (Py.get cand "skills") (VList []))
                     (Py.or (Py.get i "skills") (VList []))
  = if bool_decide (sa = ∅) || bool_decide (sb = ∅) then Ok 0%Q
    else Ok (if (size (sa ∪ sb) =? 0)%nat then 0%Q
             else Z.of_nat (size (sa ∩ sb)) # Pos.of_nat (size (sa ∪ sb))).
Proof.
  unfold skill_set, jaccard_similarity. rewrite !or_list_idem.
  intros (xs & -> & [= <-])%bind_Ok (ys & -> & [= <-])%bind_Ok. done.
Qed.

Lemma skill_score_total cand i :
  skills_wf cand = true → skills_wf i = true →
  ∃ sk, skill_score cand i = Ok sk.
Proof.
  intros (l1 & H1 & _)%skills_wf_list (l2 & H2 & _)%skills_wf_list.
  unfold skill_score.
  rewrite (skill_set_jaccard cand i (norm_set l1) (norm_set l2)).
  - case_match; simpl; eauto.
  - unfold skill_set. by rewrite H1.
  - unfold skill_set. by rewrite H2.
Qed.

Lemma skills_overlap_total cand i :
  skills_wf cand = true → skills_wf i = true →
  ∃ ov, skills_overlap cand i = Ok ov.
Proof.
  intros (l1 & H1 & [o1 Ho1]%mapM_lower_strip_total)%skills_wf_list
         (l2 & H2 & [o2 Ho2]%mapM_lower_strip_total)%skills_wf_list.
  unfold skills_overlap. rewrite H1, H2. simpl. rewrite Ho1. simpl.
  rewrite Ho2. simpl. eauto.
Qed.

Lemma education_fits_total cand i :
  listing_wf i = true → ∃ fits, education_fits cand i = Ok fits.
Proof.
  unfold listing_wf, education_fits.
  intros [[_ He]%andb_prop _]%andb_prop.
  repeat case_match; try done; simpl; eauto.
Qed.

Lemma stipend_total i :
  listing_wf i = true →
  ∃ rich, Py.ge_int (Py.or (Py.get i "stipend") (VInt 0)) 8000 = Ok rich.
Proof.
  unfold listing_wf. intros [_ Hs]%andb_prop.
  repeat case_match; try done; simpl; eauto.
Qed.

Lemma score_item_total cand i :
  candidate_wf cand = true → listing_wf i = true →
  ∃ r, score_item cand i = Ok r.
Proof.
  intros Hc Hi. unfold candidate_wf in Hc.
  assert (skills_wf i = true) as Hi'.
  { unfold listing_wf in Hi. by apply andb_prop in Hi as [[? _]%andb_prop _]. }
  destruct (skill_score_total cand i Hc Hi') as [sk Hsk].
  destruct (skills_overlap_total cand i Hc Hi') as [ov Hov].
  destruct (education_fits_total cand i Hi) as [fits Hfits].
  destruct (stipend_total i Hi) as [rich Hrich].
  unfold score_item. destruct (compute_location_score cand i) as [ls lw].
  rewrite Hsk. simpl. rewrite Hov. simpl.
  destruct (Qle_bool sk 0); simpl; rewrite Hfits; simpl;
    destruct fits, (norm_eq (Py.get cand "sector") (Py.get i "sector")),
      (Py.truthy (Py.get i "sector")), (Py.truthy (Py.get i "women_empowerment"));
    simpl; rewrite Hrich; simpl; destruct rich; eauto.
Qed.
End totality.

(** ** Resolution of the location fields *)

Section flattening.

Lemma location_keys_cases k :
  k ∈ location_keys → k = "state" ∨ k = "district" ∨ k = "city".
Proof.
  unfold location_keys. rewrite !elem_of_cons, elem_of_nil. tauto.
Qed.

Lemma get_insert (d : gmap string value) k k' v :
  Py.get (<[k := v]> d) k' = if decide (k = k') then v else Py.get d k'.
Proof. unfold Py.get. rewrite lookup_insert. by case_decide. Qed.

Lemma get_insert_ne (d : gmap string value) k k' v :
  k ≠ k' → Py.get (<[k := v]> d) k' = Py.get d k'.
Proof. intros. rewrite get_insert. by case_decide. Qed.

Lemma get_insert_eq (d : gmap string value) k v :
  Py.get (<[k := v]> d) k = v.
Proof. rewrite get_insert. by case_decide. Qed.

Lemma or_else_resolved d k v :
  Py.or_else (Py.get d k)
    (Py.attr_get (Py.or (Py.get d "location") (VDict ∅)) k) = Ok v →
  v = resolved d k.
Proof.
  unfold Py.or_else, resolved, nested.
  destruct (Py.truthy (Py.get d k)); [by intros [= <-]|].
  destruct (Py.or (Py.get d "location") (VDict ∅)); simpl; by intros [= <-].
Qed.

Lemma or_else_total d k :
  location_wf d = true →
  Py.or_else (Py.get d k)
    (Py.attr_get (Py.or (Py.get d "location") (VDict ∅)) k)
  = Ok (resolved d k).
Proof.
  unfold location_wf, Py.or_else, resolved, nested.
  destruct (Py.truthy (Py.get d k)); [done|].
  by destruct (Py.or (Py.get d "location") (VDict ∅)).
Qed.

Lemma or_else_idem a b v :
  Py.or_else a b = Ok v → Py.or_else v b = Ok v.
Proof.
  unfold Py.or_else. destruct (Py.truthy a) eqn:Ha.
  - intros [= <-]. by rewrite Ha.
  - intros ->. by destruct (Py.truthy v).
Qed.

(** The flattened record: the three resolved fields written over the
    copy, and the women-empowerment flag defaulted when missing. *)
Lemma _to_flat_inv item flat :
  _to_flat item = Ok flat →
  ∃ s d c,
    let loc := Py.or (Py.get item "location") (VDict ∅) in
    Py.or_else (Py.get item "state") (Py.attr_get loc "state") = Ok s ∧
    Py.or_else (Py.get item "district") (Py.attr_get loc "district") = Ok d ∧
    Py.or_else (Py.get item "city") (Py.attr_get loc "city") = Ok c ∧
    flat = match item !! "women_empowerment" with
           | None =>
               <["women_empowerment" :=
                   VBool (Py.truthy (default (VBool false)
                                       (item !! "gender_empowerment")))]>
                 (<["city" := c]> (<["district" := d]> (<["state" := s]> item)))
           | Some _ =>
               <["city" := c]> (<["district" := d]> (<["state" := s]> item))
           end.
Proof.
  unfold _to_flat. intros H.
  apply bind_Ok in H as (s & Hs & H). apply bind_Ok in H as (d & Hd & H).
  apply bind_Ok in H as (c & Hc & H).
  rewrite !get_insert_ne in Hd by done. rewrite !get_insert_ne in Hc by done.
  exists s, d, c. split_and!; try done.
  rewrite !lookup_insert_ne in H by done. by injection H as <-.
Qed.

Lemma _to_flat_total item :
  location_wf item = true → ∃ flat, _to_flat item = Ok flat.
Proof.
  intros Hwf. unfold _to_flat.
  rewrite (or_else_total _ "state" Hwf). simpl.
  rewrite !get_insert_ne by done.
  rewrite (or_else_total _ "district" Hwf). simpl.
  rewrite !get_insert_ne by done.
  rewrite (or_else_total _ "city" Hwf). simpl.
  eauto.
Qed.

Lemma _to_flat_Raise_iff item e :
  _to_flat item = Raise e
  ↔ e = AttributeError ∧ location_wf item = false
    ∧ ∃ k, k ∈ location_keys ∧ Py.truthy (Py.get item k) = false.
Proof.
  destruct (location_wf item) eqn:Hwf.
  { destruct (_to_flat_total item Hwf) as [flat ->].
    split; [done|]. by intros (_ & ? & _). }
  assert (∀ k, Py.attr_get (Py.or (Py.get item "location") (VDict ∅)) k
               = Raise AttributeError) as Hloc.
  { intros k. unfold location_wf in Hwf.
    by destruct (Py.or (Py.get item "location") (VDict ∅)). }
  assert (∀ k, k = "state" ∨ k = "district" ∨ k = "city" → k ∈ location_keys)
    as Hkeys.
  { intros k [->|[->| ->]]; unfold location_keys; rewrite !elem_of_cons; auto. }
  unfold _to_flat, Py.or_else. rewrite !Hloc.
  destruct (Py.truthy (Py.get item "state")) eqn:Hs; simpl.
  2:{ split; [intros [= <-]|by intros [-> _]].
      split_and!; [done..|]. exists "state". auto. }
  rewrite get_insert_ne by done.
  destruct (Py.truthy (Py.get item "district")) eqn:Hd; simpl.
  2:{ split; [intros [= <-]|by intros [-> _]].
      split_and!; [done..|]. exists "district". auto. }
  rewrite !get_insert_ne by done.
  destruct (Py.truthy (Py.get item "city")) eqn:Hc; simpl.
  2:{ split; [intros [= <-]|by intros [-> _]].
      split_and!; [done..|]. exists "city". auto. }
  split; [done|].
  intros (_ & _ & k & [->|[->| ->]]%location_keys_cases & Hk); congruence.
Qed.

Lemma _to_flat_idempotent item flat :
  _to_flat item = Ok flat → _to_flat flat = Ok flat.
Proof.
  intros H. apply _to_flat_inv in H as (s & d & c & Hs & Hd & Hc & Hflat).
  simpl in *.
  assert (Py.get flat "location" = Py.get item "location"
          ∧ flat !! "state" = Some s ∧ flat !! "district" = Some d
          ∧ flat !! "city" = Some c
          ∧ is_Some (flat !! "women_empowerment")) as (Hloc & Fs & Fd & Fc & Fw).
  { subst flat. unfold Py.get.
    destruct (item !! "women_empowerment") eqn:Hw;
      rewrite ?lookup_insert_eq, ?lookup_insert_ne by done;
      rewrite ?lookup_insert_eq, ?lookup_insert_ne by done;
      rewrite ?lookup_insert_eq, ?lookup_insert_ne by done;
      rewrite ?lookup_insert_eq, ?lookup_insert_ne by done;
      rewrite ?Hw; eauto. }
  clear Hflat.
  apply or_else_idem in Hs. apply or_else_idem in Hd. apply or_else_idem in Hc.
  unfold _to_flat. rewrite Hloc.
  replace (Py.get flat "state") with s by (unfold Py.get; by rewrite Fs).
  rewrite Hs. simpl. rewrite (insert_id flat "state" s Fs).
  replace (Py.get flat "district") with d by (unfold Py.get; by rewrite Fd).
  rewrite Hd. simpl. rewrite (insert_id flat "district" d Fd).
  replace (Py.get flat "city") with c by (unfold Py.get; by rewrite Fc).
  rewrite Hc. simpl. rewrite (insert_id flat "city" c Fc).
  by destruct Fw as [w ->].
Qed.

Lemma candidate_of_inv payload cand :
  candidate_of payload = Ok cand →
  Py.get cand "state" = resolved payload "state"
  ∧ Py.get cand "district" = resolved payload "district"
  ∧ Py.get cand "city" = resolved payload "city".
Proof.
  unfold candidate_of. intros H.
  apply bind_Ok in H as (s & Hs%or_else_resolved & H).
  apply bind_Ok in H as (d & Hd%or_else_resolved & H).
  apply bind_Ok in H as (c & Hc%or_else_resolved & H).
  injection H as <-. subst.
  split_and!; repeat (rewrite get_insert_ne by done); apply get_insert_eq.
Qed.

Lemma candidate_of_total payload :
  location_wf payload = true → ∃ cand, candidate_of payload = Ok cand.
Proof.
  intros Hwf. unfold candidate_of.
  rewrite (or_else_total _ "state" Hwf), (or_else_total _ "district" Hwf),
    (or_else_total _ "city" Hwf). simpl. eauto.
Qed.
End flattening.

(** * The claims *)

#[local] Open Scope Q_scope.

(** ** Matching on absent fields *)

(** Two fields that are both absent normalise to [None] on both sides
  and compare equal. *)
Lemma absent_fields_compare_equal (cand i : gmap string value) k :
cand !! k = None → i !! k = None →
norm_eq (Py.get cand k) (Py.get i k) = true.
Proof. unfold norm_eq, Py.get. by intros -> ->. Qed.

(** C1: when a field is absent on both sides the matcher should add
  nothing and give no reason.  The code gives no reason but does add
  the weight: a candidate and a listing that share nothing, and both
  omit district, city and sector, score 0.0875 + 0.0625 + 0.20 = 0.35
  with an empty reason list. *)
Theorem C1_absent_fields_still_score :
compute_location_score Scenario.stranger Scenario.remote_listing
  = (0 + LOCATION_WEIGHT * 0.35 + LOCATION_WEIGHT * 0.25, [])
∧ score_item Scenario.stranger Scenario.remote_listing
  = Ok {| score := 0.3500;
          internship := Scenario.remote_listing;
          why := [] |}.
Proof. split; vm_compute; reflexivity. Qed.

(** ** The worked example *)

(** C8: the candidate and listing of the worked example score 0.8667,
  from location 0.25, skills (1/3) x 0.35, education 0.20, sector 0.20
  and the two 0.05 bonuses, with the eight reasons in evaluation
  order. *)
Theorem C8_worked_example :
(compute_location_score Scenario.candidate Scenario.listing).1 == 0.25
∧ (∃ sk, skill_score Scenario.candidate Scenario.listing = Ok sk
         ∧ sk == (1 # 3) * 0.35)
∧ education_fits Scenario.candidate Scenario.listing = Ok true
∧ EDUCATION_WEIGHT = 0.20
∧ norm_eq (Py.get Scenario.candidate "sector")
          (Py.get Scenario.listing "sector") = true
∧ SECTOR_WEIGHT = 0.20
∧ Py.truthy (Py.get Scenario.listing "women_empowerment") = true
∧ BONUS_WOMEN = 0.05
∧ Py.ge_int (Py.or (Py.get Scenario.listing "stipend") (VInt 0)) 8000 = Ok true
∧ BONUS_STIPEND = 0.05
∧ Py.round4 (0.25 + (1 # 3) * 0.35 + 0.20 + 0.20 + 0.05 + 0.05) = 0.8667
∧ score_item Scenario.candidate Scenario.listing
  = Ok {| score := 0.8667;
          internship := Scenario.listing;
          why := Scenario.reasons |}
∧ render <$> Scenario.reasons
  = [Some "State match: Maharashtra"; Some "District match: Pune";
     Some "City match: Pune"; Some "Skills overlap: react";
     Some "Education fits: B.Tech"; Some "Sector preference: Technology";
     Some "Supports women empowerment"; Some "Stipend ≥ ₹8000 (₹10000)"].
Proof.
split_and!; try (vm_compute; reflexivity).
eexists. split; [vm_compute; reflexivity|]. vm_compute. reflexivity.
Qed.

(** ** Non-positive [top_k] *)

(** C2, as the code behaves: a request with [top_k = 0] (or [-3]) is
    served, with the single best listing. *)
Lemma C2_top_k_zero_is_served :
  recommend [Scenario.remote_listing; Scenario.listing] Scenario.candidate 0
    = Ok [{| score := 0.8667; internship := Scenario.listing;
             why := Scenario.reasons |}]
  ∧ recommend [Scenario.remote_listing; Scenario.listing] Scenario.candidate (-3)
    = Ok [{| score := 0.8667; internship := Scenario.listing;
             why := Scenario.reasons |}].
Proof. split; vm_compute; reflexivity. Qed.

(** C2, amended: a [top_k] of zero or below is clamped to 1 by
    [max(1, top_k)]; the call behaves exactly as with [top_k = 1], and
    every list it returns has one entry, the best-scoring listing: no
    scored listing of the catalog scores more, and among the listings
    with that score it is the first of the catalog. *)
Theorem C2_top_k_clamped INTERNSHIPS payload (top_k : Z) :
  (top_k <= 0)%Z →
  recommend INTERNSHIPS payload top_k = recommend INTERNSHIPS payload 1
  ∧ ∀ out, recommend INTERNSHIPS payload top_k = Ok out →
      length out = 1%nat
      ∧ ∃ candidate all best,
          candidate_of payload = Ok candidate
          ∧ mapM (score_item candidate) INTERNSHIPS = Ok all
          ∧ out = [best]
          ∧ best ∈ all
          ∧ (∀ r, r ∈ all → score r <= score best)
          ∧ head (with_score (score best) all) = Some best.
Proof.
  intros Hk. unfold recommend, rank.
  replace (Z.max 1 top_k) with 1%Z by lia. split; [done|].
  destruct INTERNSHIPS as [|i L]; [done|]. intros out H.
  apply bind_Ok in H as (cand & Hcand & H).
  apply bind_Ok in H as (all & Hall & H).
  injection H as <-. pose proof (mapM_Ok_length _ _ _ Hall) as Hlen.
  pose proof (sort_desc_length all) as Hsl.
  pose proof (sort_desc_perm all) as Hperm.
  pose proof (sort_desc_sorted all) as Hsorted.
  pose proof (sort_desc_stable) as Hstable.
  destruct (sort_desc all) as [|best rest] eqn:Hsort.
  { simpl in *. lia. }
  simpl. split; [done|]. exists cand, all, best.
  split_and!; [done|done|done| | |].
  - rewrite <- Hperm. by left.
  - intros r Hr. rewrite <- Hperm in Hr.
    apply elem_of_cons in Hr as [->|Hr]; [apply Qle_refl|].
    apply StronglySorted_cons in Hsorted as [Hbest _].
    rewrite Forall_forall in Hbest. exact (Hbest r Hr).
  - specialize (Hstable (score best) all). rewrite Hsort in Hstable.
    rewrite <- Hstable. unfold with_score. rewrite filter_cons.
    destruct (decide (score best == score best)) as [_|Hne]; [done|].
    by destruct Hne.
Qed.

Lemma C2_top_k_clamped_witness :
  (0 <= 0)%Z
  ∧ recommend [Scenario.remote_listing; Scenario.listing] Scenario.candidate 0
    = recommend [Scenario.remote_listing; Scenario.listing] Scenario.candidate 1.
Proof.
  split; [lia|].
  apply (C2_top_k_clamped [Scenario.remote_listing; Scenario.listing]
           Scenario.candidate 0).
  lia.
Defined.

(** ** Range of the score *)

(** C3: every score [score_item] produces lies between 0 and 1.10, the
    sum of the four weights and the two bonuses; and [score_item] does
    produce a score for every well-typed candidate and listing. *)
Theorem C3_score_bounds cand i :
  (∀ r, score_item cand i = Ok r → 0 <= score r <= 1.10)
  ∧ (candidate_wf cand = true → listing_wf i = true →
     ∃ r, score_item cand i = Ok r)
  ∧ LOCATION_WEIGHT + SKILL_WEIGHT + EDUCATION_WEIGHT + SECTOR_WEIGHT
    + BONUS_WOMEN + BONUS_STIPEND == 1.10.
Proof.
  split_and!; [|apply score_item_total|done].
  intros r H.
  apply score_item_inv in H
    as (sk & so & fits & rich & total & Hsk & _ & _ & _ & Htotal & ->).
  simpl. apply round4_bounds. rewrite Htotal.
  apply skill_score_bounds in Hsk.
  pose proof (compute_location_score_bounds cand i).
  unfold bonus, EDUCATION_WEIGHT, SECTOR_WEIGHT, BONUS_WOMEN, BONUS_STIPEND.
  repeat case_match; lra.
Qed.

Lemma C3_score_bounds_witness :
  score_item Scenario.candidate Scenario.listing
    = Ok {| score := 0.8667; internship := Scenario.listing;
            why := Scenario.reasons |}
  ∧ 0 <= 0.8667 <= 1.10.
Proof.
  assert (score_item Scenario.candidate Scenario.listing
          = Ok {| score := 0.8667; internship := Scenario.listing;
                  why := Scenario.reasons |}) as H
    by (vm_compute; reflexivity).
  split; [exact H|].
  exact (proj1 (C3_score_bounds Scenario.candidate Scenario.listing) _ H).
Defined.

(** The bound is reached: a listing matched on every signal scores 1.10. *)
Lemma score_item_max_attained :
  score <$> score_item (<["skills" := VList [VStr "react"; VStr "typescript"]]>
                          Scenario.candidate) Scenario.listing
  = Ok 1.1000.
Proof. vm_compute. reflexivity. Qed.

(** ** Ranking *)

Lemma rank_inv cand L top_k out :
  rank cand L top_k = Ok out →
  ∃ all, mapM (score_item cand) L = Ok all
         ∧ out = take (Z.to_nat (Z.max 1 top_k)) (sort_desc all).
Proof.
  unfold rank. intros H. apply bind_Ok in H as (all & Hall & [= <-]). eauto.
Qed.

Lemma rank_total cand L top_k :
  candidate_wf cand = true → Forall (λ i, listing_wf i = true) L →
  ∃ out, rank cand L top_k = Ok out.
Proof.
  intros Hc HL. unfold rank.
  destruct (mapM_total (score_item cand) L) as [all ->]; [|simpl; eauto].
  eapply Forall_impl; [exact HL|]. intros i Hi. by apply score_item_total.
Qed.

(** C4: for a positive [top_k] the ranking has exactly
    [min(top_k, number of listings)] entries, and each entry scores at
    least as much as the next; the ranking is returned whenever the
    candidate and the listings are well typed. *)
Theorem C4_rank_length_sorted cand L (top_k : Z) :
  (0 < top_k)%Z →
  (∀ out, rank cand L top_k = Ok out →
     length out = Nat.min (Z.to_nat top_k) (length L)
     ∧ ∀ n a b, out !! n = Some a → out !! S n = Some b → score b <= score a)
  ∧ (candidate_wf cand = true → Forall (λ i, listing_wf i = true) L →
     ∃ out, rank cand L top_k = Ok out).
Proof.
  intros Hk. split; [|apply rank_total].
  intros out (all & Hall & ->)%rank_inv.
  replace (Z.max 1 top_k) with top_k by lia. split.
  - rewrite length_take, sort_desc_length. by rewrite (mapM_Ok_length _ _ _ Hall).
  - intros n a b Ha Hb.
    change (desc a b).
    eapply StronglySorted_adjacent; [|exact Ha|exact Hb].
    apply StronglySorted_take, sort_desc_sorted.
Qed.

Lemma C4_rank_length_sorted_witness :
  (0 < 2)%Z
  ∧ ∃ out,
      rank Scenario.candidate
        [Scenario.remote_listing; Scenario.listing; Scenario.remote_listing] 2
      = Ok out
      ∧ length out = 2%nat.
Proof.
  split; [lia|].
  destruct (C4_rank_length_sorted Scenario.candidate
              [Scenario.remote_listing; Scenario.listing; Scenario.remote_listing]
              2 ltac:(lia)) as [Hlen Htot].
  destruct Htot as [out Hout]; [by vm_compute|by repeat constructor|].
  exists out. split; [done|]. by apply Hlen in Hout as [-> _].
Defined.

Lemma score_item_internship cand i r :
  score_item cand i = Ok r → internship r = i.
Proof.
  intros H. apply score_item_inv in H as (?&?&?&?&?&_&_&_&_&_&->). done.
Qed.

(** C5: the ranking is a function of the candidate, the catalog and
    [top_k]; and for every score the ranked entries with that score are
    the first of the catalog entries with that score, in catalog order. *)
Theorem C5_rank_deterministic_stable cand L (top_k : Z) out :
  rank cand L top_k = Ok out →
  (∀ out', rank cand L top_k = Ok out' → out' = out)
  ∧ ∃ all,
      mapM (score_item cand) L = Ok all
      ∧ internship <$> all = L
      ∧ ∀ s, with_score s out `prefix_of` with_score s all.
Proof.
  intros H. split; [congruence|].
  apply rank_inv in H as (all & Hall & ->). exists all. split_and!; [done| |].
  - apply mapM_Ok in Hall. clear -Hall.
    induction Hall as [|i r L all Hr _ IH]; [done|].
    by rewrite fmap_cons, IH, (score_item_internship _ _ _ Hr).
  - intros s. rewrite <- (sort_desc_stable s all). apply with_score_take.
Qed.

Lemma C5_rank_deterministic_stable_witness :
  ∃ out,
    rank Scenario.candidate
      [Scenario.remote_listing; Scenario.listing; Scenario.remote_listing] 2
    = Ok out
    ∧ ∀ out',
        rank Scenario.candidate
          [Scenario.remote_listing; Scenario.listing; Scenario.remote_listing] 2
        = Ok out' → out' = out.
Proof.
  eexists. split; [vm_compute; reflexivity|].
  apply (C5_rank_deterministic_stable Scenario.candidate
           [Scenario.remote_listing; Scenario.listing; Scenario.remote_listing] 2).
  vm_compute. reflexivity.
Defined.

(** ** Flat and nested location fields *)

(** C6, as the code behaves: a flat [state] that is present but empty
    does not take precedence; the nested value is used instead. *)
Lemma C6_blank_flat_field_falls_back :
  Scenario.blank_state_listing !! "state" = Some (VStr "")
  ∧ (λ flat : gmap string value, flat !! "state")
      <$> _to_flat Scenario.blank_state_listing
    = Ok (Some (VStr "Goa"))
  ∧ (λ cand : gmap string value, cand !! "state")
      <$> candidate_of Scenario.blank_state_listing
    = Ok (Some (VStr "Goa")).
Proof. split_and!; vm_compute; reflexivity. Qed.

(** C6, amended: for a listing at load time and for a candidate request,
    each of state, district and city resolves to the flat field when that
    field is truthy (present, not null, not empty), and to the field of
    the nested location object otherwise; so a truthy flat field always
    takes precedence over the nested one. *)
Theorem C6_flat_precedence k :
  k ∈ location_keys →
  (∀ item flat, _to_flat item = Ok flat →
     Py.get flat k = resolved item k
     ∧ (Py.truthy (Py.get item k) = true → Py.get flat k = Py.get item k)
     ∧ (Py.truthy (Py.get item k) = false → Py.get flat k = nested item k))
  ∧ (∀ payload cand, candidate_of payload = Ok cand →
     Py.get cand k = resolved payload k
     ∧ (Py.truthy (Py.get payload k) = true → Py.get cand k = Py.get payload k)
     ∧ (Py.truthy (Py.get payload k) = false → Py.get cand k = nested payload k)).
Proof.
  intros Hk.
  assert (∀ d v, v = resolved d k →
            v = resolved d k
            ∧ (Py.truthy (Py.get d k) = true → v = Py.get d k)
            ∧ (Py.truthy (Py.get d k) = false → v = nested d k)) as Hres.
  { intros d v ->. unfold resolved. split_and!; [done|by intros ->..]. }
  split.
  - intros item flat H. apply Hres.
    apply _to_flat_inv in H as (s & d & c & Hs & Hd & Hc & ->). simpl in *.
    apply or_else_resolved in Hs, Hd, Hc. subst s d c.
    destruct (location_keys_cases k Hk) as [->|[->| ->]];
      destruct (item !! "women_empowerment");
      repeat (rewrite get_insert_ne by done); apply get_insert_eq.
  - intros payload cand H. apply Hres.
    apply candidate_of_inv in H as (Hs & Hd & Hc).
    by destruct (location_keys_cases k Hk) as [->|[->| ->]].
Qed.

Lemma C6_flat_precedence_witness :
  "state" ∈ location_keys
  ∧ ∃ flat, _to_flat Scenario.listing = Ok flat
            ∧ Py.get flat "state" = VStr "Maharashtra".
Proof.
  assert ("state" ∈ location_keys) as Hk by apply list_elem_of_here.
  split; [exact Hk|].
  destruct (_to_flat_total Scenario.listing) as [flat Hflat];
    [vm_compute; reflexivity|].
  exists flat. split; [exact Hflat|].
  rewrite (proj1 (proj1 (C6_flat_precedence "state" Hk) _ _ Hflat)).
  vm_compute. reflexivity.
Defined.

(** ** Empty skill sets *)



(** ** Order of the reasons *)

(** C9: the reasons of a scored result are, in this order, the location
    reasons, at most one skills-overlap reason, at most one education
    reason, at most one sector reason, at most one women-empowerment
    reason and at most one stipend reason. *)
Theorem C9_why_category_order cand i r :
  score_item cand i = Ok r →
  (∃ lw sw ew cw ww tw,
     why r = lw ++ sw ++ ew ++ cw ++ ww ++ tw
     ∧ Forall (λ x, category_of x = Location) lw
     ∧ Forall (λ x, category_of x = Skills) sw ∧ length sw ≤ 1
     ∧ Forall (λ x, category_of x = Education) ew ∧ length ew ≤ 1
     ∧ Forall (λ x, category_of x = Sector) cw ∧ length cw ≤ 1
     ∧ Forall (λ x, category_of x = WomenBonus) ww ∧ length ww ≤ 1
     ∧ Forall (λ x, category_of x = StipendBonusCat) tw ∧ length tw ≤ 1)%nat
  ∧ StronglySorted category_le (why r).
Proof.
  intros H.
  apply score_item_inv in H
    as (sk & so & fits & rich & total & _ & _ & _ & _ & _ & ->).
  simpl.
  pose proof (compute_location_score_category cand i) as Hloc.
  set (lw := (compute_location_score cand i).2) in *.
  set (sw := skills_reason so).
  set (ew := opt_reason fits _). set (cw := opt_reason (_ && _) _).
  set (ww := opt_reason (Py.truthy _) _). set (tw := opt_reason rich _).
  assert (Forall (λ x, category_of x = Skills) sw ∧ length sw ≤ 1)%nat
    as [Hsw Hsw'].
  { subst sw. destruct so; simpl; split; repeat constructor. }
  assert (∀ b x, Forall (λ y, category_of y = category_of x) (opt_reason b x)
                 ∧ (length (opt_reason b x) ≤ 1)%nat) as Hopt.
  { intros [] x; simpl; split; repeat constructor. }
  destruct (Hopt fits (EducationFits (Py.get cand "education"))) as [Hew Hew'].
  destruct (Hopt (norm_eq (Py.get cand "sector") (Py.get i "sector")
                  && Py.truthy (Py.get i "sector"))
              (SectorPreference (Py.get i "sector"))) as [Hcw Hcw'].
  destruct (Hopt (Py.truthy (Py.get i "women_empowerment")) WomenEmpowerment)
    as [Hww Hww'].
  destruct (Hopt rich (StipendBonus (Py.get i "stipend"))) as [Htw Htw'].
  fold ew in Hew, Hew'. fold cw in Hcw, Hcw'. fold ww in Hww, Hww'.
  fold tw in Htw, Htw'. simpl in Hew, Hcw, Hww, Htw.
  split.
  { exists lw, sw, ew, cw, ww, tw. split_and!; done. }
  assert (∀ (c : category) l,
            Forall (λ x, category_of x = c) l → StronglySorted category_le l)
    as Hsame.
  { intros c l Hl. induction Hl as [|x l Hx Hl IH]; constructor; [done|].
    eapply Forall_impl; [exact Hl|]. intros y Hy. unfold category_le.
    by rewrite Hx, Hy. }
  assert (∀ (c1 c2 : category) l1 l2,
            (category_rank c1 ≤ category_rank c2)%nat →
            Forall (λ x, category_of x = c1) l1 →
            Forall (λ x, category_rank c2 ≤ category_rank (category_of x))%nat l2 →
            StronglySorted category_le l2 →
            Forall (λ x, category_rank c1 ≤ category_rank (category_of x))%nat
                   (l1 ++ l2)
            ∧ StronglySorted category_le (l1 ++ l2)) as Hcat.
  { intros c1 c2 l1 l2 Hc H1 H2 Hs. split.
    - apply Forall_app. split.
      + eapply Forall_impl; [exact H1|]. intros x ->. done.
      + eapply Forall_impl; [exact H2|]. simpl. intros x Hx. lia.
    - apply StronglySorted_app. split_and!; [|by eapply Hsame|done].
      intros x1 x2 Hx1 Hx2. rewrite Forall_forall in H1, H2.
      unfold category_le. rewrite (H1 _ Hx1). specialize (H2 _ Hx2). lia. }
  assert (Forall (λ x, category_rank StipendBonusCat
                       ≤ category_rank (category_of x))%nat tw
          ∧ StronglySorted category_le tw) as [B5 S5].
  { split; [|by eapply Hsame].
    eapply Forall_impl; [exact Htw|]. by intros x ->. }
  destruct (Hcat WomenBonus StipendBonusCat ww tw) as [B4 S4];
    [simpl; lia|done..|].
  destruct (Hcat Sector WomenBonus cw (ww ++ tw)) as [B3 S3];
    [simpl; lia|done..|].
  destruct (Hcat Education Sector ew (cw ++ ww ++ tw)) as [B2 S2];
    [simpl; lia|done..|].
  destruct (Hcat Skills Education sw (ew ++ cw ++ ww ++ tw)) as [B1 S1];
    [simpl; lia|done..|].
  by destruct (Hcat Location Skills lw (sw ++ ew ++ cw ++ ww ++ tw)) as [_ S0];
    [simpl; lia|done..|].
Qed.

Lemma C9_why_category_order_witness :
  score_item Scenario.candidate Scenario.listing
    = Ok {| score := 0.8667; internship := Scenario.listing;
            why := Scenario.reasons |}
  ∧ StronglySorted category_le Scenario.reasons.
Proof.
  assert (score_item Scenario.candidate Scenario.listing
          = Ok {| score := 0.8667; internship := Scenario.listing;
                  why := Scenario.reasons |}) as H
    by (vm_compute; reflexivity).
  split; [exact H|].
  exact (proj2 (C9_why_category_order _ _ _ H)).
Defined.

(** ** Flattening *)

(** C10, as the code behaves: a record whose [location] is a string and
    whose state is absent at the top level, and so at both levels, makes
    flattening raise. *)
Lemma C10_string_location_raises :
  Scenario.string_location_listing !! "state" = None
  ∧ nested Scenario.string_location_listing "state" = VNone
  ∧ _to_flat Scenario.string_location_listing = Raise AttributeError.
Proof. split_and!; vm_compute; reflexivity. Qed.

(** C10, amended: flattening a flattened record returns it unchanged;
    flattening returns for every record whose [location] is missing, null
    or an object, in particular when a field is absent both at the top
    level and in the nested object, in which case it resolves to [None];
    and it raises, with [AttributeError], exactly for the records whose
    [location] is truthy and not an object while their state, district
    or city is falsy at the top level. *)
Theorem C10_to_flat_idempotent_total item :
  (∀ flat, _to_flat item = Ok flat → _to_flat flat = Ok flat)
  ∧ (location_wf item = true → ∃ flat, _to_flat item = Ok flat)
  ∧ (∀ k, k ∈ location_keys →
       item !! k = None → nested item k = VNone →
       location_wf item = true →
       ∃ flat, _to_flat item = Ok flat ∧ flat !! k = Some VNone)
  ∧ (∀ e, _to_flat item = Raise e
          ↔ e = AttributeError ∧ location_wf item = false
            ∧ ∃ k, k ∈ location_keys ∧ Py.truthy (Py.get item k) = false).
Proof.
  split_and!.
  - apply _to_flat_idempotent.
  - apply _to_flat_total.
  - intros k Hk Hflat Hnested Hwf.
    destruct (_to_flat_total item Hwf) as [flat H]. exists flat.
    split; [done|].
    assert (resolved item k = VNone) as Hres.
    { unfold resolved, Py.get. by rewrite Hflat. }
    apply _to_flat_inv in H as (s & d & c & Hs & Hd & Hc & ->). simpl in *.
    apply or_else_resolved in Hs, Hd, Hc. subst s d c.
    destruct (location_keys_cases k Hk) as [->|[->| ->]];
      destruct (item !! "women_empowerment");
      repeat (rewrite lookup_insert_ne by done);
      by rewrite lookup_insert_eq, Hres.
  - apply _to_flat_Raise_iff.
Qed.

Lemma C10_to_flat_idempotent_total_witness :
  location_wf Scenario.remote_listing = true
  ∧ ∃ flat, _to_flat Scenario.remote_listing = Ok flat
            ∧ _to_flat flat = Ok flat
            ∧ flat !! "district" = Some VNone.
Proof.
  assert (location_wf Scenario.remote_listing = true) as Hwf
    by (vm_compute; reflexivity).
  split; [exact Hwf|].
  destruct (C10_to_flat_idempotent_total Scenario.remote_listing)
    as (Hidem & _ & Habsent & _).
  destruct (Habsent "district") as (flat & Hflat & Hd);
    [apply list_elem_of_further, list_elem_of_here|by vm_compute..|].
  exists flat. split_and!; [done|by apply Hidem|done].
Defined.

(** ** The request handler around the ranking *)

Lemma recommend_empty_catalog payload top_k :
  recommend [] payload top_k = Raise (HTTPException 500).
Proof. done. Qed.

Lemma recommend_nonempty_catalog INTERNSHIPS payload top_k :
  INTERNSHIPS ≠ [] →
  recommend INTERNSHIPS payload top_k
  = candidate_of payload ≫= λ candidate, rank candidate INTERNSHIPS top_k.
Proof. by destruct INTERNSHIPS. Qed.

(** * Further properties of the matchers *)

(** ** Jaccard similarity *)

Lemma iter_Raise v e : Py.iter v = Raise e → e = TypeError.
Proof. destruct v; simpl; congruence. Qed.

(** X1: the Jaccard similarity is symmetric in its two arguments, also
    when it raises: the only exception it can raise is [TypeError]. *)
Theorem X1_jaccard_symmetric a b :
  jaccard_similarity a b = jaccard_similarity b a.
Proof.
  unfold jaccard_similarity.
  destruct (Py.iter (Py.or a (VList []))) as [xs|e1] eqn:Ha;
    destruct (Py.iter (Py.or b (VList []))) as [ys|e2] eqn:Hb; simpl.
  - rewrite (orb_comm (bool_decide (norm_set ys = ∅))).
    assert (norm_set ys ∩ norm_set xs = norm_set xs ∩ norm_set ys) as ->
      by apply intersection_comm_L.
    assert (norm_set ys ∪ norm_set xs = norm_set xs ∪ norm_set ys) as ->
      by apply union_comm_L.
    done.
  - done.
  - done.
  - apply iter_Raise in Ha, Hb. by subst.
Qed.

Lemma jaccard_normalised a b sa sb :
  normalised a = Ok sa → normalised b = Ok sb →
  jaccard_similarity a b
  = if bool_decide (sa = ∅) || bool_decide (sb = ∅) then Ok 0
    else Ok (if (size (sa ∪ sb) =? 0)%nat then 0
             else Z.of_nat (size (sa ∩ sb)) # Pos.of_nat (size (sa ∪ sb))).
Proof.
  unfold normalised, jaccard_similarity.
  intros (xs & -> & [= <-])%bind_Ok (ys & -> & [= <-])%bind_Ok. done.
Qed.

Lemma size_union_pos (sa sb : gset string) :
  sa ≠ ∅ → Z.pos (Pos.of_nat (size (sa ∪ sb))) = Z.of_nat (size (sa ∪ sb))
           ∧ (0 < size (sa ∪ sb))%nat.
Proof.
  intros Hne.
  assert (size (sa ∪ sb) ≠ 0)%nat as Hpos.
  { intros H%size_empty_iff. apply Hne. apply leibniz_equiv.
    intros x. split; [|by intros ?%elem_of_empty].
    intros Hx. apply H. apply elem_of_union. by left. }
  split; [|lia]. rewrite <- positive_nat_Z. by rewrite Nat2Pos.id.
Qed.

(** X2: when both arguments can be iterated, the similarity is returned,
    and it is 0 exactly when the two normalised sets have no element in
    common. *)
Theorem X2_jaccard_zero_iff_disjoint a b sa sb :
  normalised a = Ok sa → normalised b = Ok sb →
  ∃ j, jaccard_similarity a b = Ok j ∧ (j == 0 ↔ sa ∩ sb = ∅).
Proof.
  intros Ha Hb. rewrite (jaccard_normalised a b sa sb Ha Hb).
  destruct (decide (sa = ∅)) as [->|Hsa].
  { rewrite bool_decide_eq_true_2 by done. simpl. eexists. split; [done|].
    split; [intros _|done]. apply intersection_empty_l_L. }
  destruct (decide (sb = ∅)) as [->|Hsb].
  { rewrite (bool_decide_eq_true_2 (∅ = ∅)) by done. rewrite orb_true_r.
    eexists. split; [done|].
    split; [intros _|done]. apply intersection_empty_r_L. }
  rewrite !bool_decide_eq_false_2 by done. simpl.
  destruct (size_union_pos sa sb Hsa) as [Hpos Hlt].
  destruct (Nat.eqb_spec (size (sa ∪ sb)) 0) as [?|_]; [lia|].
  eexists. split; [done|]. unfold Qeq. simpl. split.
  - intros H. apply leibniz_equiv, size_empty_iff. lia.
  - intros ->. rewrite size_empty. lia.
Qed.

Lemma X2_jaccard_zero_iff_disjoint_witness :
  normalised (VList [VStr "React"; VStr " css "]) = Ok {["react"; "css"]}
  ∧ normalised (VStr "") = Ok ∅
  ∧ ∃ j, jaccard_similarity (VList [VStr "React"; VStr " css "]) (VStr "") = Ok j
         ∧ (j == 0 ↔ ({["react"; "css"]} : gset string) ∩ ∅ = ∅).
Proof.
  assert (normalised (VList [VStr "React"; VStr " css "])
          = Ok {["react"; "css"]}) as Ha by (vm_compute; reflexivity).
  assert (normalised (VStr "") = Ok ∅) as Hb by (vm_compute; reflexivity).
  split_and!; [exact Ha|exact Hb|].
  exact (X2_jaccard_zero_iff_disjoint _ _ _ _ Ha Hb).
Defined.

(** X3: when both arguments can be iterated, the similarity is 1 exactly
    when the two normalised sets are equal and not empty. *)
Theorem X3_jaccard_one_iff_equal a b sa sb :
  normalised a = Ok sa → normalised b = Ok sb →
  ∃ j, jaccard_similarity a b = Ok j ∧ (j == 1 ↔ sa = sb ∧ sa ≠ ∅).
Proof.
  intros Ha Hb. rewrite (jaccard_normalised a b sa sb Ha Hb).
  destruct (decide (sa = ∅)) as [->|Hsa].
  { rewrite bool_decide_eq_true_2 by done. simpl. eexists. split; [done|].
    split; [by intros ?|by intros [_ ?]]. }
  destruct (decide (sb = ∅)) as [->|Hsb].
  { rewrite (bool_decide_eq_true_2 (∅ = ∅)) by done. rewrite orb_true_r.
    eexists. split; [done|]. split; [by intros ?|by intros [? _]]. }
  rewrite !bool_decide_eq_false_2 by done. simpl.
  destruct (size_union_pos sa sb Hsa) as [Hpos Hlt].
  destruct (Nat.eqb_spec (size (sa ∪ sb)) 0) as [?|_]; [lia|].
  eexists. split; [done|]. unfold Qeq. simpl. rewrite Hpos. split.
  - intros H. split; [|done].
    assert (size (sa ∩ sb) = size (sa ∪ sb)) as Hsz by lia.
    assert (sa ∩ sb = sa ∪ sb) as Heq.
    { apply leibniz_equiv. apply set_subseteq_size_equiv; [|lia].
      intros x [Hx _]%elem_of_intersection. apply elem_of_union. by left. }
    apply leibniz_equiv. intros x. split; intros Hx.
    + assert (x ∈ sa ∩ sb) as [_ ?]%elem_of_intersection; [|done].
      rewrite Heq. apply elem_of_union. by left.
    + assert (x ∈ sa ∩ sb) as [? _]%elem_of_intersection; [|done].
      rewrite Heq. apply elem_of_union. by right.
  - intros [<- _].
    assert (sa ∩ sa = sa) as -> by apply intersection_idemp_L.
    assert (sa ∪ sa = sa) as -> by apply union_idemp_L.
    lia.
Qed.

Lemma X3_jaccard_one_iff_equal_witness :
  normalised (VList [VStr "React"; VStr "CSS"]) = Ok {["react"; "css"]}
  ∧ normalised (VList [VStr " css"; VStr "react"; VInt 7]) = Ok {["react"; "css"]}
  ∧ ∃ j, jaccard_similarity (VList [VStr "React"; VStr "CSS"])
           (VList [VStr " css"; VStr "react"; VInt 7]) = Ok j
         ∧ (j == 1 ↔ ({["react"; "css"]} : gset string) = {["react"; "css"]}
                     ∧ ({["react"; "css"]} : gset string) ≠ ∅).
Proof.
  assert (normalised (VList [VStr "React"; VStr "CSS"])
          = Ok {["react"; "css"]}) as Ha by (vm_compute; reflexivity).
  assert (normalised (VList [VStr " css"; VStr "react"; VInt 7])
          = Ok {["react"; "css"]}) as Hb by (vm_compute; reflexivity).
  split_and!; [exact Ha|exact Hb|].
  exact (X3_jaccard_one_iff_equal _ _ _ _ Ha Hb).
Defined.

(** ** Normalised text *)

Section normal_forms.

Lemma lower_ascii_idemp a : Py.lower_ascii (Py.lower_ascii a) = Py.lower_ascii a.
Proof. destruct a as [[] [] [] [] [] [] [] []]; reflexivity. Qed.

Lemma isspace_lower_ascii a : Py.isspace (Py.lower_ascii a) = Py.isspace a.
Proof. destruct a as [[] [] [] [] [] [] [] []]; reflexivity. Qed.

Lemma lower_idemp s : Py.lower (Py.lower s) = Py.lower s.
Proof. induction s as [|a s IH]; simpl; [done|]. by rewrite lower_ascii_idemp, IH. Qed.

Lemma lower_lstrip s : Py.lower (Py.lstrip s) = Py.lstrip (Py.lower s).
Proof.
  induction s as [|a s IH]; simpl; [done|].
  rewrite isspace_lower_ascii. by destruct (Py.isspace a).
Qed.

Lemma lower_rstrip s : Py.lower (Py.rstrip s) = Py.rstrip (Py.lower s).
Proof.
  induction s as [|a s IH]; simpl; [done|].
  rewrite <- IH, isspace_lower_ascii.
  destruct (Py.rstrip s); simpl; [by destruct (Py.isspace a)|done].
Qed.

Lemma lower_strip s : Py.lower (Py.strip s) = Py.strip (Py.lower s).
Proof. unfold Py.strip. by rewrite lower_rstrip, lower_lstrip. Qed.

Lemma lstrip_starts_clean s : starts_clean (Py.lstrip s).
Proof.
  induction s as [|a s IH]; simpl; [done|].
  by destruct (Py.isspace a) eqn:Ha.
Qed.

Lemma lstrip_clean s : starts_clean s → Py.lstrip s = s.
Proof. destruct s as [|a s]; simpl; [done|]. by intros ->. Qed.

Lemma rstrip_starts_clean s : starts_clean s → starts_clean (Py.rstrip s).
Proof.
  destruct s as [|a s]; simpl; [done|]. intros Ha.
  destruct (Py.rstrip s); simpl; [by rewrite Ha|done].
Qed.

Lemma rstrip_idemp s : Py.rstrip (Py.rstrip s) = Py.rstrip s.
Proof.
  induction s as [|a s IH]; simpl; [done|].
  destruct (Py.rstrip s) as [|b r] eqn:Hr.
  - destruct (Py.isspace a) eqn:Ha; simpl; [done|]. by rewrite Ha.
  - simpl in *. by rewrite IH.
Qed.

Lemma strip_idemp s : Py.strip (Py.strip s) = Py.strip s.
Proof.
  unfold Py.strip.
  rewrite (lstrip_clean (Py.rstrip (Py.lstrip s))).
  - apply rstrip_idemp.
  - apply rstrip_starts_clean, lstrip_starts_clean.
Qed.

End normal_forms.

Section ascii_strings.

Lemma ascii_char_lower a : ascii_char (Py.lower_ascii a) = ascii_char a.
Proof. destruct a as [[] [] [] [] [] [] [] []]; reflexivity. Qed.

Lemma is_ascii_lower s : is_ascii (Py.lower s) = is_ascii s.
Proof. induction s as [|a s IH]; simpl; [done|]. by rewrite ascii_char_lower, IH. Qed.

Lemma is_ascii_lstrip s : is_ascii s = true → is_ascii (Py.lstrip s) = true.
Proof.
  induction s as [|a s IH]; simpl; [done|]. intros [Ha Hs]%andb_prop.
  destruct (Py.isspace a); [by apply IH|]. simpl. by rewrite Ha, Hs.
Qed.

Lemma is_ascii_rstrip s : is_ascii s = true → is_ascii (Py.rstrip s) = true.
Proof.
  induction s as [|a s IH]; simpl; [done|]. intros [Ha Hs]%andb_prop.
  specialize (IH Hs). destruct (Py.rstrip s); simpl in *.
  - destruct (Py.isspace a); simpl; [done|]. by rewrite Ha.
  - by rewrite Ha, IH.
Qed.

Lemma is_ascii_strip s : is_ascii s = true → is_ascii (Py.strip s) = true.
Proof. intros Hs. unfold Py.strip. by apply is_ascii_rstrip, is_ascii_lstrip. Qed.

End ascii_strings.

(** X4: for ASCII strings, the normal form is again an ASCII string and
    a fixed point of the normalisation, and it does not change when the
    string is first lower-cased or stripped: comparisons of normal forms
    ignore ASCII case and surrounding ASCII whitespace. *)
Theorem X4_norm_text_normal_form s :
  is_ascii s = true →
  (∀ t, _norm_text (VStr s) = Some t →
        is_ascii t = true ∧ _norm_text (VStr t) = Some t)
  ∧ is_ascii (Py.lower s) = true
  ∧ _norm_text (VStr (Py.lower s)) = _norm_text (VStr s)
  ∧ is_ascii (Py.strip s) = true
  ∧ _norm_text (VStr (Py.strip s)) = _norm_text (VStr s).
Proof.
  intros Hs. split_and!.
  - intros t [= <-]. split.
    + apply is_ascii_strip. by rewrite is_ascii_lower.
    + simpl. by rewrite <- lower_strip, strip_idemp, lower_strip, lower_idemp.
  - by rewrite is_ascii_lower.
  - simpl. by rewrite lower_idemp.
  - by apply is_ascii_strip.
  - simpl. by rewrite lower_strip, strip_idemp.
Qed.

Lemma X4_norm_text_normal_form_witness :
  is_ascii "  B.Tech " = true
  ∧ _norm_text (VStr "  B.Tech ") = Some "b.tech"
  ∧ _norm_text (VStr "b.tech") = Some "b.tech".
Proof.
  assert (is_ascii "  B.Tech " = true) as Hs by reflexivity.
  assert (_norm_text (VStr "  B.Tech ") = Some "b.tech") as H by reflexivity.
  split_and!; [exact Hs|exact H|].
  exact (proj2 (proj1 (X4_norm_text_normal_form _ Hs) _ H)).
Defined.

(** ** What the scorer reads *)

(** X5: the location score and its reasons depend on the candidate only
    through the normal forms of its state, district and city; and the
    location score depends on the listing, too, only through the normal
    forms of these fields: case and surrounding whitespace never change
    it. *)
Theorem X5_location_score_normal_forms cand cand' i i' :
  (∀ k, k ∈ location_keys →
        _norm_text (Py.get cand k) = _norm_text (Py.get cand' k)) →
  compute_location_score cand i = compute_location_score cand' i
  ∧ ((∀ k, k ∈ location_keys →
           _norm_text (Py.get i k) = _norm_text (Py.get i' k)) →
     (compute_location_score cand i).1 = (compute_location_score cand' i').1).
Proof.
  intros H.
  assert (∀ k, k = "state" ∨ k = "district" ∨ k = "city" → k ∈ location_keys)
    as Hk.
  { intros k [->|[->| ->]]; unfold location_keys; rewrite !elem_of_cons; auto. }
  split.
  - unfold compute_location_score, norm_eq.
    by rewrite (H "state"), (H "district"), (H "city") by auto.
  - intros H'. unfold compute_location_score, norm_eq.
    rewrite (H "state"), (H "district"), (H "city") by auto.
    rewrite (H' "state"), (H' "district"), (H' "city") by auto.
    destruct (bool_decide (_norm_text (Py.get cand' "state")
                           = _norm_text (Py.get i' "state"))),
      (bool_decide (_norm_text (Py.get cand' "district")
                    = _norm_text (Py.get i' "district"))),
      (bool_decide (_norm_text (Py.get cand' "city")
                    = _norm_text (Py.get i' "city")));
      reflexivity.
Qed.

Lemma X5_location_score_normal_forms_witness :
  compute_location_score (<["city" := VStr " PUNE "]> Scenario.candidate)
    Scenario.listing
  = compute_location_score Scenario.candidate Scenario.listing.
Proof.
  refine (proj1 (X5_location_score_normal_forms _ _ _ Scenario.listing _)).
  intros k [->|[->| ->]]%location_keys_cases; reflexivity.
Defined.

(** X6: [score_item] reads six fields of the candidate; two candidates
    that agree on them get the same result, so [name], [gender] and any
    other field of the candidate never change a score or a reason. *)
Theorem X6_score_item_reads_six_fields cand cand' i :
  (∀ k, k ∈ scored_keys → Py.get cand k = Py.get cand' k) →
  score_item cand i = score_item cand' i.
Proof.
  intros H.
  unfold score_item, compute_location_score, skill_score, skills_overlap,
    education_fits.
  rewrite (H "state"), (H "district"), (H "city"), (H "skills"),
    (H "education"), (H "sector"); [done|..];
    unfold scored_keys; rewrite !elem_of_cons; auto 10.
Qed.

Lemma X6_score_item_reads_six_fields_witness :
  score_item (<["gender" := VStr "female"]> Scenario.candidate) Scenario.listing
  = score_item Scenario.candidate Scenario.listing.
Proof.
  apply X6_score_item_reads_six_fields.
  intros k Hk. apply get_insert_ne. intros <-.
  unfold scored_keys in Hk. rewrite !elem_of_cons, elem_of_nil in Hk.
  by repeat destruct Hk as [Hk|Hk].
Defined.

(** ** Reasons *)

Lemma compute_location_score_justified cand i :
  Forall (justified cand i) (compute_location_score cand i).2.
Proof.
  unfold compute_location_score, norm_eq.
  repeat (case_match; simplify_eq/=);
    repeat (apply Forall_app; split); repeat constructor;
    by repeat match goal with
       | H : bool_decide _ = true |- _ => apply bool_decide_eq_true in H
       end.
Qed.

(** X7: every reason in the [why] list of a result is backed by the
    records: a location or sector reason carries the listing's value,
    which is truthy and whose normal form is the normal form of the
    candidate's value (for a value that is not a string the normal form
    is [None], as it is for an absent value); a skills reason carries the
    overlap computed from the two skill lists, which is not the empty
    list; an education reason carries the candidate's education, which
    fits; the women-empowerment reason is given for a truthy flag and
    the stipend reason carries the listing's stipend, which is truthy and
    at least 8000. *)
Theorem X7_reasons_justified cand i r :
  score_item cand i = Ok r → Forall (justified cand i) (why r).
Proof.
  intros H. apply score_item_inv in H
    as (sk & so & fits & rich & total & Hsk & Hso & Hfits & Hrich & _ & ->).
  simpl. repeat (apply Forall_app; split).
  - apply compute_location_score_justified.
  - destruct Hso as [->|[_ Hov]]; [constructor|].
    destruct so; repeat constructor; done.
  - destruct fits; repeat constructor. done.
  - destruct (norm_eq _ _) eqn:Heq; [|constructor].
    destruct (Py.truthy (Py.get i "sector")) eqn:Ht; repeat constructor; [done|].
    by apply bool_decide_eq_true in Heq.
  - destruct (Py.truthy _) eqn:Ht; repeat constructor. done.
  - destruct rich; repeat constructor.
    + unfold Py.or in Hrich. by destruct (Py.truthy (Py.get i "stipend")).
    + unfold Py.or in Hrich. by destruct (Py.truthy (Py.get i "stipend")).
Qed.

Lemma X7_reasons_justified_witness :
  score_item Scenario.candidate Scenario.listing
    = Ok {| score := 0.8667; internship := Scenario.listing;
            why := Scenario.reasons |}
  ∧ Forall (justified Scenario.candidate Scenario.listing) Scenario.reasons.
Proof.
  assert (score_item Scenario.candidate Scenario.listing
          = Ok {| score := 0.8667; internship := Scenario.listing;
                  why := Scenario.reasons |}) as H
    by (vm_compute; reflexivity).
  split; [exact H|].
  exact (X7_reasons_justified _ _ _ H).
Defined.

(** ** More on ranking *)

(** X8: the ranking returns the best entries: together with the entries
    it leaves out it is a rearrangement of the scored catalog, and no
    entry left out scores more than an entry returned. *)
Theorem X8_rank_returns_the_best cand L (top_k : Z) out :
  rank cand L top_k = Ok out →
  ∃ all rest,
    mapM (score_item cand) L = Ok all
    ∧ out ++ rest ≡ₚ all
    ∧ length out = Nat.min (Z.to_nat (Z.max 1 top_k)) (length L)
    ∧ ∀ a b, a ∈ out → b ∈ rest → score b <= score a.
Proof.
  intros (all & Hall & ->)%rank_inv.
  exists all, (drop (Z.to_nat (Z.max 1 top_k)) (sort_desc all)).
  split_and!; [done| | |].
  - rewrite take_drop. apply sort_desc_perm.
  - rewrite length_take, sort_desc_length. by rewrite (mapM_Ok_length _ _ _ Hall).
  - intros a b Ha Hb. change (desc a b).
    eapply (StronglySorted_app_1_elem_of desc); [|exact Ha|exact Hb].
    rewrite take_drop. apply sort_desc_sorted.
Qed.

Lemma X8_rank_returns_the_best_witness :
  ∃ out,
    rank Scenario.candidate [Scenario.remote_listing; Scenario.listing] 1
    = Ok out
    ∧ ∃ all rest,
        mapM (score_item Scenario.candidate)
          [Scenario.remote_listing; Scenario.listing] = Ok all
        ∧ out ++ rest ≡ₚ all
        ∧ length out = 1%nat
        ∧ ∀ a b, a ∈ out → b ∈ rest → score b <= score a.
Proof.
  eexists. split; [vm_compute; reflexivity|].
  apply (X8_rank_returns_the_best Scenario.candidate
           [Scenario.remote_listing; Scenario.listing] 1).
  vm_compute. reflexivity.
Defined.

(** X9: asking for more results only extends the ranking: for
    [top_k ≤ top_k'] the ranking for [top_k] is a prefix of the ranking
    for [top_k']. *)
Theorem X9_rank_prefix_monotone cand L (top_k top_k' : Z) out :
  (top_k <= top_k')%Z →
  rank cand L top_k = Ok out →
  ∃ out', rank cand L top_k' = Ok out' ∧ out `prefix_of` out'.
Proof.
  intros Hk (all & Hall & ->)%rank_inv. unfold rank. rewrite Hall. simpl.
  eexists. split; [done|].
  replace (Z.to_nat (Z.max 1 top_k))
    with (Nat.min (Z.to_nat (Z.max 1 top_k)) (Z.to_nat (Z.max 1 top_k')))
    by lia.
  rewrite <- take_take. apply prefix_take.
Qed.

Lemma X9_rank_prefix_monotone_witness :
  (1 <= 2)%Z
  ∧ ∃ out out',
      rank Scenario.candidate [Scenario.remote_listing; Scenario.listing] 1
      = Ok out
      ∧ rank Scenario.candidate [Scenario.remote_listing; Scenario.listing] 2
        = Ok out'
      ∧ out `prefix_of` out'.
Proof.
  split; [lia|].
  assert (∃ out,
            rank Scenario.candidate
              [Scenario.remote_listing; Scenario.listing] 1 = Ok out)
    as [out Hout] by (eexists; vm_compute; reflexivity).
  destruct (X9_rank_prefix_monotone _ _ 1 2 out ltac:(lia) Hout)
    as (out' & Hout' & Hpre).
  exists out, out'. split_and!; assumption.
Defined.

(** ** Errors *)

Section errors.

Lemma bind_Raise {A B} (m : result A) (f : A → result B) e :
  m ≫= f = Raise e → m = Raise e ∨ ∃ a, m = Ok a ∧ f a = Raise e.
Proof. destruct m as [a|e']; simpl; [eauto|]. intros [= ->]. by left. Qed.

Lemma mapM_Raise {A B} (f : A → result B) l e :
  mapM f l = Raise e → ∃ x, x ∈ l ∧ f x = Raise e.
Proof.
  induction l as [|x l IH]; simpl; [done|].
  intros [H|(y & Hy & H)]%bind_Raise.
  - exists x. split; [left|done].
  - apply bind_Raise in H as [H|(k & _ & H)]; [|done].
    destruct (IH H) as (x' & Hx' & He). exists x'. split; [by right|done].
Qed.

Lemma lower_strip_Raise x e : Py.lower_strip x = Raise e → e = AttributeError.
Proof. destruct x; simpl; congruence. Qed.

Lemma attr_get_Raise x k e : Py.attr_get x k = Raise e → e = AttributeError.
Proof. destruct x; simpl; congruence. Qed.

Lemma or_else_Raise a x k e :
  Py.or_else a (Py.attr_get x k) = Raise e → e = AttributeError.
Proof.
  unfold Py.or_else. destruct (Py.truthy a); [done|]. apply attr_get_Raise.
Qed.

Lemma ge_int_Raise v n e : Py.ge_int v n = Raise e → e = TypeError.
Proof. destruct v; simpl; congruence. Qed.

Lemma jaccard_similarity_Raise a b e :
  jaccard_similarity a b = Raise e → e = TypeError.
Proof.
  unfold jaccard_similarity.
  intros [H|(xs & _ & H)]%bind_Raise; [by apply iter_Raise in H|].
  apply bind_Raise in H as [H|(ys & _ & H)]; [by apply iter_Raise in H|].
  simpl in H. by repeat case_match.
Qed.

Lemma skills_overlap_Raise cand i e :
  skills_overlap cand i = Raise e → is_runtime_error e.
Proof.
  unfold skills_overlap.
  intros [H|(cs & _ & H)]%bind_Raise; [by apply iter_Raise in H as ->|].
  apply bind_Raise in H as [H|(cs' & _ & H)].
  { apply mapM_Raise in H as (x & _ & ->%lower_strip_Raise). done. }
  apply bind_Raise in H as [H|(ls & _ & H)]; [by apply iter_Raise in H as ->|].
  apply bind_Raise in H as [H|(ls' & _ & H)]; [|done].
  apply mapM_Raise in H as (x & _ & ->%lower_strip_Raise). done.
Qed.

Lemma education_fits_Raise cand i e :
  education_fits cand i = Raise e → e = TypeError.
Proof.
  unfold education_fits.
  destruct (_norm_text (Py.get cand "education")) as [ed|]; [|done].
  destruct (negb (String.eqb ed "")); [|done].
  intros [He|(ls & _ & He)]%bind_Raise; [by apply iter_Raise in He|done].
Qed.

Lemma score_item_Raise cand i e :
  score_item cand i = Raise e → is_runtime_error e.
Proof.
  unfold score_item. destruct (compute_location_score cand i) as [ls lw].
  intros [H|(sk & _ & H)]%bind_Raise.
  { unfold skill_score in H.
    apply bind_Raise in H as [H|(j & _ & H)]; [|done].
    by apply jaccard_similarity_Raise in H as ->. }
  apply bind_Raise in H as [H|(why1 & _ & H)].
  { destruct (negb (Qle_bool sk 0)); [|done].
    apply bind_Raise in H as [H|(ov & _ & H)]; [|done].
    by apply skills_overlap_Raise in H. }
  apply bind_Raise in H as [H|(fits & _ & H)].
  { by apply education_fits_Raise in H as ->. }
  destruct fits, (norm_eq (Py.get cand "sector") (Py.get i "sector")),
    (Py.truthy (Py.get i "sector")), (Py.truthy (Py.get i "women_empowerment"));
    simpl in H;
    (apply bind_Raise in H as [H|(rich & _ & H)];
     [by apply ge_int_Raise in H as ->|by destruct rich]).
Qed.

Lemma rank_Raise cand L top_k e :
  rank cand L top_k = Raise e → is_runtime_error e.
Proof.
  unfold rank. intros [H|(all & _ & H)]%bind_Raise; [|done].
  apply mapM_Raise in H as (i & _ & H). by apply score_item_Raise in H.
Qed.

Lemma candidate_of_Raise payload e :
  candidate_of payload = Raise e → e = AttributeError.
Proof.
  unfold candidate_of.
  intros [H|(s & _ & H)]%bind_Raise; [by apply or_else_Raise in H|].
  apply bind_Raise in H as [H|(d & _ & H)]; [by apply or_else_Raise in H|].
  apply bind_Raise in H as [H|(c & _ & H)]; [by apply or_else_Raise in H|].
  done.
Qed.

End errors.

(** X10: the handler answers with an HTTP error exactly when the catalog
    is empty, and the status is then 500 whatever the request; every
    other failure is a [TypeError] or [AttributeError] of the runtime. *)
Theorem X10_recommend_http_error INTERNSHIPS payload (top_k : Z) :
  (∀ status, recommend INTERNSHIPS payload top_k = Raise (HTTPException status)
             ↔ INTERNSHIPS = [] ∧ status = 500%Z)
  ∧ (∀ e, INTERNSHIPS ≠ [] → recommend INTERNSHIPS payload top_k = Raise e →
          is_runtime_error e).
Proof.
  assert (∀ e, INTERNSHIPS ≠ [] →
               recommend INTERNSHIPS payload top_k = Raise e →
               is_runtime_error e) as Hrun.
  { intros e Hne. rewrite recommend_nonempty_catalog by done.
    intros [H|(cand & _ & H)]%bind_Raise.
    - by apply candidate_of_Raise in H as ->.
    - by apply rank_Raise in H. }
  split; [|exact Hrun]. intros status. split.
  - destruct INTERNSHIPS as [|i L]; [by intros [= <-]|].
    intros H. by apply Hrun in H.
  - by intros [-> ->].
Qed.

Lemma X10_recommend_http_error_witness :
  recommend [] Scenario.candidate 5 = Raise (HTTPException 500).
Proof.
  apply (proj1 (X10_recommend_http_error [] Scenario.candidate 5)). done.
Defined.

(** ** More on flattening *)

(** X12: flattening writes the four derived keys and nothing else: every
    other key keeps its value, the four keys are present afterwards, and
    [women_empowerment] keeps the value it had, even a null one; only
    when the key is missing it is set to the truth value of the legacy
    [gender_empowerment] flag. *)
Theorem X12_to_flat_frame item flat :
  _to_flat item = Ok flat →
  (∀ k, k ∉ derived_keys → flat !! k = item !! k)
  ∧ (∀ k, k ∈ derived_keys → is_Some (flat !! k))
  ∧ flat !! "women_empowerment"
    = Some (match item !! "women_empowerment" with
            | Some v => v
            | None => VBool (Py.truthy (default (VBool false)
                                          (item !! "gender_empowerment")))
            end).
Proof.
  intros H. apply _to_flat_inv in H as (s & d & c & _ & _ & _ & ->).
  split_and!.
  - intros k Hk. unfold derived_keys in Hk.
    rewrite !not_elem_of_cons in Hk. destruct Hk as (?&?&?&?&_).
    destruct (item !! "women_empowerment");
      by repeat (rewrite lookup_insert_ne by done).
  - intros k Hk. unfold derived_keys in Hk.
    rewrite !elem_of_cons, elem_of_nil in Hk.
    destruct (item !! "women_empowerment") eqn:Hw;
      destruct Hk as [->|[->|[->|[->|[]]]]];
      repeat (rewrite lookup_insert_ne by done);
      rewrite ?lookup_insert_eq, ?Hw; eauto.
  - destruct (item !! "women_empowerment") eqn:Hw.
    + by repeat (rewrite lookup_insert_ne by done).
    + by rewrite lookup_insert_eq.
Qed.

Lemma X12_to_flat_frame_witness :
  ∃ flat, _to_flat Scenario.remote_listing = Ok flat
          ∧ flat !! "women_empowerment" = Some (VBool false)
          ∧ flat !! "skills" = Some (VList [VStr "Python"]).
Proof.
  destruct (_to_flat_total Scenario.remote_listing) as [flat Hflat];
    [vm_compute; reflexivity|].
  exists flat. split; [exact Hflat|].
  destruct (X12_to_flat_frame _ _ Hflat) as (Hframe & _ & Hw). split.
  - rewrite Hw. vm_compute. reflexivity.
  - rewrite Hframe; [vm_compute; reflexivity|].
    unfold derived_keys. rewrite !not_elem_of_cons. split_and!; try done.
    apply not_elem_of_nil.
Defined.

Lemma _to_flat_Raise item e :
  _to_flat item = Raise e → e = AttributeError ∧ location_wf item = false.
Proof.
  intros H. split.
  - unfold _to_flat in H.
    apply bind_Raise in H as [H|(s & _ & H)]; [by apply or_else_Raise in H|].
    apply bind_Raise in H as [H|(d & _ & H)]; [by apply or_else_Raise in H|].
    apply bind_Raise in H as [H|(c & _ & H)]; [by apply or_else_Raise in H|].
    done.
  - destruct (location_wf item) eqn:Hwf; [|done].
    destruct (_to_flat_total item Hwf) as [flat Hflat]. congruence.
Qed.

(** X13: loading the catalog keeps the number and order of the records,
    gives every record the four derived keys, and is idempotent: loading
    a loaded catalog returns it unchanged. *)
Theorem X13_load_catalog INTERNSHIPS_RAW INTERNSHIPS :
  load_catalog INTERNSHIPS_RAW = Ok INTERNSHIPS →
  length INTERNSHIPS = length INTERNSHIPS_RAW
  ∧ Forall2 (λ item flat, _to_flat item = Ok flat) INTERNSHIPS_RAW INTERNSHIPS
  ∧ Forall (λ flat, ∀ k, k ∈ derived_keys → is_Some (flat !! k)) INTERNSHIPS
  ∧ load_catalog INTERNSHIPS = Ok INTERNSHIPS.
Proof.
  unfold load_catalog. intros H.
  pose proof (mapM_Ok_length _ _ _ H) as Hlen.
  apply mapM_Ok in H. split_and!; [done|done| |].
  - clear Hlen.
    induction H as [|item flat raw cat Hflat _ IH]; [constructor|].
    constructor; [|done]. intros k Hk.
    apply _to_flat_inv in Hflat as (s & d & c & _ & _ & _ & ->).
    unfold derived_keys in Hk. rewrite !elem_of_cons, elem_of_nil in Hk.
    destruct (item !! "women_empowerment") eqn:Hw;
      destruct Hk as [->|[->|[->|[->|[]]]]];
      repeat (rewrite lookup_insert_ne by done);
      rewrite ?lookup_insert_eq, ?Hw; eauto.
  - apply mapM_Ok. clear Hlen.
    induction H as [|item flat raw cat Hflat _ IH]; [constructor|].
    constructor; [|done]. by apply _to_flat_idempotent in Hflat.
Qed.

Lemma X13_load_catalog_witness :
  ∃ cat,
    load_catalog [Scenario.blank_state_listing; Scenario.remote_listing] = Ok cat
    ∧ length cat = 2%nat ∧ load_catalog cat = Ok cat.
Proof.
  assert (∃ cat, load_catalog
                   [Scenario.blank_state_listing; Scenario.remote_listing]
                 = Ok cat) as [cat Hcat].
  { apply mapM_total. repeat constructor; apply _to_flat_total; reflexivity. }
  exists cat. split; [exact Hcat|].
  destruct (X13_load_catalog _ _ Hcat) as (Hlen & _ & _ & Hidem).
  split; [exact Hlen|exact Hidem].
Defined.

Lemma mapM_Raise_all {A B} (f : A → result B) l x e :
  (∀ y e', f y = Raise e' → e' = e) →
  x ∈ l → f x = Raise e → mapM f l = Raise e.
Proof.
  intros Hf Hin Hx. induction Hin as [x l|x y l Hin IH]; simpl.
  - by rewrite Hx.
  - destruct (f y) as [b|e'] eqn:Hy; simpl.
    + by rewrite IH.
    + by rewrite (Hf y e' Hy).
Qed.

Lemma flatten_item_Raise_iff item e :
  flatten_item item = Raise e ↔ e = AttributeError ∧ unflattenable item.
Proof.
  destruct item; simpl;
    try (split; [by intros [= <-]|by intros [-> _]]).
  rewrite _to_flat_Raise_iff. tauto.
Qed.

(** X14: on any parsed JSON document, line 42 raises [TypeError] exactly
    when the document cannot be iterated, and raises [AttributeError]
    exactly when it can and one of its items is not an object, or is an
    object whose [location] is truthy and not an object while its state,
    district or city is falsy at the top level.  It raises nothing
    else. *)
Theorem X14_flatten_document_failure INTERNSHIPS_RAW e :
  flatten_document INTERNSHIPS_RAW = Raise e
  ↔ (e = TypeError ∧ Py.iter INTERNSHIPS_RAW = Raise TypeError)
    ∨ (e = AttributeError
       ∧ ∃ items item, Py.iter INTERNSHIPS_RAW = Ok items
                       ∧ item ∈ items ∧ unflattenable item).
Proof.
  unfold flatten_document.
  destruct (Py.iter INTERNSHIPS_RAW) as [items|e'] eqn:Hiter; simpl.
  - split.
    + intros (item & Hin & [-> Hbad]%flatten_item_Raise_iff)%mapM_Raise.
      right. split; [done|]. by exists items, item.
    + intros [[_ [=]]|(-> & items' & item & [= <-] & Hin & Hbad)].
      apply (mapM_Raise_all flatten_item items item); [|done|].
      * by intros y e' [-> _]%flatten_item_Raise_iff.
      * by apply flatten_item_Raise_iff.
  - apply iter_Raise in Hiter as ->. split.
    + intros [= <-]. by left.
    + intros [[-> _]|(_ & ? & ? & [=] & _)]. done.
Qed.

(** ** The education matcher *)

Lemma education_fits_iff cand i :
  education_fits cand i = Ok true
  ↔ ∃ e levels level,
      _norm_text (Py.get cand "education") = Some e ∧ e ≠ ""
      ∧ Py.iter (Py.or (Py.get i "education_levels") (VList [])) = Ok levels
      ∧ level ∈ levels ∧ _norm_text level = Some e.
Proof.
  unfold education_fits. split.
  - destruct (_norm_text (Py.get cand "education")) as [e|]; [|done].
    destruct (String.eqb_spec e "") as [->|Hne]; simpl; [done|].
    intros (levels & Hl & [= Hex])%bind_Ok.
    apply existsb_exists in Hex as (level & Hin & Heq).
    apply bool_decide_eq_true in Heq. apply list_elem_of_In in Hin.
    by exists e, levels, level.
  - intros (e & levels & level & -> & Hne & -> & Hin & Heq).
    destruct (String.eqb_spec e "") as [->|_]; simpl; [done|].
    f_equal. apply existsb_exists. exists level.
    split; [by apply list_elem_of_In|]. by apply bool_decide_eq_true.
Qed.

(** ** The skills reason *)

Section skills_reason.

(** The stages of [score_item], with the skill stage in full: the overlap
    is computed exactly when the skill contribution is positive. *)
Lemma score_item_stages cand i r :
  score_item cand i = Ok r →
  ∃ sk so fits rich,
    skill_score cand i = Ok sk
    ∧ ((sk <= 0 ∧ so = []) ∨ (0 < sk ∧ skills_overlap cand i = Ok so))
    ∧ education_fits cand i = Ok fits
    ∧ Py.ge_int (Py.or (Py.get i "stipend") (VInt 0)) 8000 = Ok rich
    ∧ why r = (compute_location_score cand i).2
              ++ skills_reason so
              ++ opt_reason fits (EducationFits (Py.get cand "education"))
              ++ opt_reason (norm_eq (Py.get cand "sector") (Py.get i "sector")
                             && Py.truthy (Py.get i "sector"))
                   (SectorPreference (Py.get i "sector"))
              ++ opt_reason (Py.truthy (Py.get i "women_empowerment")) WomenEmpowerment
              ++ opt_reason rich (StipendBonus (Py.get i "stipend")).
Proof.
  unfold score_item.
  destruct (compute_location_score cand i) as [ls lw]. simpl.
  intros H. apply bind_Ok in H as (sk & Hsk & H).
  apply bind_Ok in H as (why1 & Hwhy & H).
  apply bind_Ok in H as (fits & Hfits & H).
  assert (∃ so, why1 = lw ++ skills_reason so ∧
                ((sk <= 0 ∧ so = []) ∨ (0 < sk ∧ skills_overlap cand i = Ok so)))
    as (so & -> & Hso).
  { destruct (Qle_bool sk 0) eqn:Hle; simpl in Hwhy.
    - injection Hwhy as <-. exists []. rewrite app_nil_r.
      apply Qle_bool_iff in Hle. auto.
    - apply bind_Ok in Hwhy as (ov & Hov & [= <-]).
      assert (0 < sk).
      { apply Qnot_le_lt. intros Hc%Qle_bool_iff. congruence. }
      exists ov. split; [destruct ov; simpl; by rewrite ?app_nil_r|]. auto. }
  exists sk, so, fits.
  destruct fits, (norm_eq (Py.get cand "sector") (Py.get i "sector")),
    (Py.truthy (Py.get i "sector")), (Py.truthy (Py.get i "women_empowerment"));
    simpl in H; apply bind_Ok in H as (rich & Hrich & H);
    exists rich; destruct rich; injection H as <-;
    (split_and!; [done|done|done|done|
      simpl; rewrite <- ?app_assoc; simpl; rewrite ?app_nil_r; reflexivity]).
Qed.

Lemma skills_reason_in_why (lw : list reason) so fits fx sec sx wom rich tx o :
  Forall (λ x, category_of x = Location) lw →
  category_of fx = Education → category_of sx = Sector →
  category_of tx = StipendBonusCat →
  SkillsOverlap o ∈ lw ++ skills_reason so ++ opt_reason fits fx
                    ++ opt_reason sec sx ++ opt_reason wom WomenEmpowerment
                    ++ opt_reason rich tx
  ↔ so ≠ [] ∧ o = so.
Proof.
  intros Hlw Hf Hs Ht. rewrite !elem_of_app. split.
  - rewrite Forall_forall in Hlw.
    intros [Hx|[Hx|[Hx|[Hx|[Hx|Hx]]]]].
    + by apply Hlw in Hx.
    + destruct so; simpl in Hx; [by apply elem_of_nil in Hx|].
      by apply list_elem_of_singleton in Hx as [= ->].
    + apply opt_reason_elem in Hx. by subst fx.
    + apply opt_reason_elem in Hx. by subst sx.
    + by apply opt_reason_elem in Hx.
    + apply opt_reason_elem in Hx. by subst tx.
  - intros [Hne ->]. right. left. destruct so; [done|]. simpl.
    by apply list_elem_of_singleton.
Qed.

Lemma mapM_lower_strip_strs l :
  forallb is_str l = true → mapM Py.lower_strip l = Ok (omap _norm_text l).
Proof.
  induction l as [|x l IH]; simpl; [done|].
  intros [Hx Hl]%andb_prop. destruct x; try done. simpl.
  by rewrite (IH Hl).
Qed.

Lemma mapM_lower_strip_bad l x :
  x ∈ l → is_str x = false → mapM Py.lower_strip l = Raise AttributeError.
Proof.
  intros Hin Hx. induction Hin as [x l|x y l Hin IH]; simpl.
  - by destruct x.
  - destruct y; simpl; try done. by rewrite (IH Hx).
Qed.

Lemma skill_set_wf d :
  skills_wf d = true →
  ∃ l, Py.or (Py.get d "skills") (VList []) = VList l
       ∧ forallb is_str l = true ∧ skill_set d = Ok (norm_set l).
Proof.
  intros (l & Hl & Hstr)%skills_wf_list. exists l. split_and!; [done..|].
  unfold skill_set. by rewrite Hl.
Qed.

Lemma skill_score_pos_iff cand i sa sb sk :
  skill_set cand = Ok sa → skill_set i = Ok sb →
  skill_score cand i = Ok sk →
  0 < sk ↔ sa ∩ sb ≠ ∅.
Proof.
  intros Ha Hb. unfold skill_score.
  rewrite (skill_set_jaccard cand i sa sb Ha Hb).
  destruct (decide (sa = ∅)) as [->|Hsa].
  { rewrite bool_decide_eq_true_2 by done. simpl. intros [= <-].
    split; [by intros ?|]. intros []. apply intersection_empty_l_L. }
  destruct (decide (sb = ∅)) as [->|Hsb].
  { rewrite (bool_decide_eq_true_2 (∅ = ∅)) by done. rewrite orb_true_r.
    simpl. intros [= <-].
    split; [by intros ?|]. intros []. apply intersection_empty_r_L. }
  rewrite !bool_decide_eq_false_2 by done. simpl.
  destruct (size_union_pos sa sb Hsa) as [Hpos Hlt].
  destruct (Nat.eqb_spec (size (sa ∪ sb)) 0) as [?|_]; [lia|].
  intros [= <-]. unfold Qlt, Qmult, SKILL_WEIGHT. simpl. split.
  - intros H Hempty. rewrite Hempty, size_empty in H. lia.
  - intros Hne.
    assert (size (sa ∩ sb) ≠ 0)%nat.
    { intros Hz%size_empty_iff. by apply Hne, leibniz_equiv. }
    lia.
Qed.

End skills_reason.

(** X15: a result of [score_item] carries an education reason exactly
    when the candidate's education is a string whose normal form is not
    empty and is the normal form of one of the listing's education
    levels; the reason then carries the candidate's education as given,
    and there is no other education reason. *)
Theorem X15_education_reason_iff cand i r :
  score_item cand i = Ok r →
  ∀ v, EducationFits v ∈ why r
       ↔ v = Py.get cand "education"
         ∧ ∃ e levels level,
             _norm_text (Py.get cand "education") = Some e ∧ e ≠ ""
             ∧ Py.iter (Py.or (Py.get i "education_levels") (VList []))
               = Ok levels
             ∧ level ∈ levels ∧ _norm_text level = Some e.
Proof.
  intros H v. rewrite <- education_fits_iff.
  apply score_item_stages in H
    as (sk & so & fits & rich & _ & _ & Hfits & _ & ->).
  rewrite Hfits, !elem_of_app.
  pose proof (compute_location_score_category cand i) as Hloc.
  rewrite Forall_forall in Hloc. split.
  - intros [Hx|[Hx|[Hx|[Hx|[Hx|Hx]]]]].
    + by apply Hloc in Hx.
    + destruct so; simpl in Hx; [by apply elem_of_nil in Hx|].
      by apply list_elem_of_singleton in Hx.
    + destruct fits; simpl in Hx; [|by apply elem_of_nil in Hx].
      by apply list_elem_of_singleton in Hx as [= ->].
    + by apply opt_reason_elem in Hx.
    + by apply opt_reason_elem in Hx.
    + by apply opt_reason_elem in Hx.
  - intros [-> [= ->]]. right. right. left. simpl.
    by apply list_elem_of_singleton.
Qed.

Lemma X15_education_reason_iff_witness :
  score_item Scenario.candidate Scenario.listing
    = Ok {| score := 0.8667; internship := Scenario.listing;
            why := Scenario.reasons |}
  ∧ EducationFits (VStr "B.Tech") ∈ Scenario.reasons.
Proof.
  assert (score_item Scenario.candidate Scenario.listing
          = Ok {| score := 0.8667; internship := Scenario.listing;
                  why := Scenario.reasons |}) as H
    by (vm_compute; reflexivity).
  split; [exact H|].
  apply (X15_education_reason_iff _ _ _ H (VStr "B.Tech")).
  split; [reflexivity|].
  exists "b.tech", [VStr "B.Tech"], (VStr "B.Tech").
  split_and!; try reflexivity; [done|apply list_elem_of_here].
Defined.

(** X16: for skill lists that are lists of strings, a skills reason is
    given exactly when the two normalised skill sets meet, and it then
    lists their common elements once each, in ascending order. *)
Theorem X16_skills_reason_iff_overlap cand i r :
  candidate_wf cand = true → skills_wf i = true →
  score_item cand i = Ok r →
  ∃ sa sb,
    skill_set cand = Ok sa ∧ skill_set i = Ok sb
    ∧ ∀ o, SkillsOverlap o ∈ why r
           ↔ sa ∩ sb ≠ ∅
             ∧ Sorted String.le o ∧ NoDup o ∧ ∀ x, x ∈ o ↔ x ∈ sa ∧ x ∈ sb.
Proof.
  intros Hc Hi H. unfold candidate_wf in Hc.
  destruct (skill_set_wf cand Hc) as (l1 & Hl1 & Hs1 & Ha).
  destruct (skill_set_wf i Hi) as (l2 & Hl2 & Hs2 & Hb).
  exists (norm_set l1), (norm_set l2). split_and!; [done..|].
  set (sa := norm_set l1) in *. set (sb := norm_set l2) in *.
  assert (skills_overlap cand i
          = Ok (merge_sort String.le (elements (sa ∩ sb)))) as Hov.
  { unfold skills_overlap. rewrite Hl1, Hl2. simpl.
    rewrite (mapM_lower_strip_strs l1 Hs1). simpl.
    by rewrite (mapM_lower_strip_strs l2 Hs2). }
  set (srt := merge_sort String.le (elements (sa ∩ sb))) in *.
  assert (srt ≡ₚ elements (sa ∩ sb)) as Hperm by apply merge_sort_Permutation.
  assert (srt = [] ↔ sa ∩ sb = ∅) as Hnil.
  { split.
    - intros Hs. rewrite Hs in Hperm. symmetry in Hperm.
      apply Permutation_nil_r in Hperm.
      by apply leibniz_equiv, elements_empty_iff.
    - intros He. apply Permutation_nil_r. rewrite Hperm, He.
      by rewrite elements_empty. }
  assert (Sorted String.le srt ∧ NoDup srt
          ∧ ∀ x, x ∈ srt ↔ x ∈ sa ∧ x ∈ sb) as Hsrt.
  { split_and!.
    - apply Sorted_merge_sort. apply _.
    - rewrite Hperm. apply NoDup_elements.
    - intros x. rewrite Hperm, elem_of_elements. apply elem_of_intersection. }
  apply score_item_stages in H
    as (sk & so & fits & rich & Hsk & Hso & _ & _ & Hwhy).
  pose proof (skill_score_pos_iff cand i sa sb sk Ha Hb Hsk) as Hpos.
  intros o. rewrite Hwhy.
  rewrite skills_reason_in_why
    by (done || apply compute_location_score_category).
  destruct Hso as [[Hle ->]|[Hlt Hso]].
  - split; [by intros [? _]|]. intros [Hne _].
    apply Hpos in Hne. lra.
  - rewrite Hov in Hso. injection Hso as <-. split.
    + intros [Hne ->]. split; [|done]. by rewrite <- Hnil.
    + intros (Hne & Hsorted & Hnodup & Hmem). split; [by rewrite Hnil|].
      destruct Hsrt as (Hsorted' & Hnodup' & Hmem').
      apply (Sorted_unique String.le); [done..|].
      apply NoDup_Permutation; [done..|].
      intros x. by rewrite Hmem, Hmem'.
Qed.

Lemma X16_skills_reason_iff_overlap_witness :
  candidate_wf Scenario.candidate = true
  ∧ skills_wf Scenario.listing = true
  ∧ ∃ sa sb,
      skill_set Scenario.candidate = Ok sa
      ∧ skill_set Scenario.listing = Ok sb
      ∧ ∀ o, SkillsOverlap o ∈ Scenario.reasons
             ↔ sa ∩ sb ≠ ∅
               ∧ Sorted String.le o ∧ NoDup o ∧ ∀ x, x ∈ o ↔ x ∈ sa ∧ x ∈ sb.
Proof.
  assert (candidate_wf Scenario.candidate = true) as Hc by reflexivity.
  assert (skills_wf Scenario.listing = true) as Hi by reflexivity.
  split_and!; [exact Hc|exact Hi|].
  apply (X16_skills_reason_iff_overlap Scenario.candidate Scenario.listing
           {| score := 0.8667; internship := Scenario.listing;
              why := Scenario.reasons |} Hc Hi).
  vm_compute. reflexivity.
Defined.

(** X17: the overlap is computed without the string filter of the
    similarity.  When a skills list holds an entry that is not a string,
    [score_item] raises [AttributeError] if the similarity of the string
    entries is positive; if it is zero the entry is ignored and the
    result, which carries no skills reason, is returned. *)
Theorem X17_non_string_skill cand i d l x sk :
  d = cand ∨ d = i →
  Py.get d "skills" = VList l → x ∈ l → is_str x = false →
  skill_score cand i = Ok sk →
  (0 < sk → score_item cand i = Raise AttributeError)
  ∧ (sk <= 0 → listing_wf i = true →
     ∃ r, score_item cand i = Ok r ∧ ∀ o, SkillsOverlap o ∉ why r).
Proof.
  intros Hd Hl Hx Hstr Hsk. split.
  - intros Hpos.
    assert (Qle_bool sk 0 = false) as Hle.
    { destruct (Qle_bool sk 0) eqn:Hle; [|done].
      apply Qle_bool_iff in Hle. lra. }
    assert (Py.or (Py.get d "skills") (VList []) = VList l) as Hor.
    { rewrite Hl. unfold Py.or. simpl. destruct l; [|done].
      by apply elem_of_nil in Hx. }
    assert (skills_overlap cand i = Raise AttributeError) as Hov.
    { unfold skill_score in Hsk. apply bind_Ok in Hsk as (j & Hj & _).
      unfold jaccard_similarity in Hj. rewrite !or_list_idem in Hj.
      apply bind_Ok in Hj as (xs & Hxs & Hj).
      apply bind_Ok in Hj as (ys & Hys & _).
      unfold skills_overlap. rewrite Hxs, Hys. simpl.
      destruct Hd as [-> | ->].
      - rewrite Hor in Hxs. injection Hxs as <-.
        by rewrite (mapM_lower_strip_bad l x Hx Hstr).
      - rewrite Hor in Hys. injection Hys as <-.
        destruct (mapM Py.lower_strip xs) as [cs|e] eqn:Hcs; simpl.
        + by rewrite (mapM_lower_strip_bad l x Hx Hstr).
        + by apply mapM_Raise in Hcs as (y & _ & ->%lower_strip_Raise). }
    unfold score_item. destruct (compute_location_score cand i) as [ls lw].
    rewrite Hsk. simpl. rewrite Hle. simpl. by rewrite Hov.
  - intros Hle Hi.
    destruct (education_fits_total cand i Hi) as [fits Hfits].
    destruct (stipend_total i Hi) as [rich Hrich].
    assert (∃ r, score_item cand i = Ok r) as [r Hr].
    { apply Qle_bool_iff in Hle.
      unfold score_item. destruct (compute_location_score cand i) as [ls lw].
      rewrite Hsk. simpl. rewrite Hle. simpl. rewrite Hfits. simpl.
      destruct fits, (norm_eq (Py.get cand "sector") (Py.get i "sector")),
        (Py.truthy (Py.get i "sector")), (Py.truthy (Py.get i "women_empowerment"));
        simpl; rewrite Hrich; simpl; destruct rich; eauto. }
    exists r. split; [done|]. intros o Ho.
    apply score_item_stages in Hr
      as (sk' & so & ? & ? & Hsk' & Hso & _ & _ & Hwhy).
    rewrite Hsk in Hsk'. injection Hsk' as <-.
    rewrite Hwhy in Ho.
    apply skills_reason_in_why in Ho as [Hne _];
      [|done || apply compute_location_score_category..].
    destruct Hso as [[_ ->]|[Hpos _]]; [done|lra].
Qed.

Lemma X17_non_string_skill_witness :
  score_item (<["skills" := VList [VStr "React"; VInt 7]]> Scenario.candidate)
    Scenario.listing
  = Raise AttributeError.
Proof.
  refine (proj1 (X17_non_string_skill
                   (<["skills" := VList [VStr "React"; VInt 7]]> Scenario.candidate)
                   Scenario.listing
                   (<["skills" := VList [VStr "React"; VInt 7]]> Scenario.candidate)
                   [VStr "React"; VInt 7] (VInt 7) ((1 # 2) * SKILL_WEIGHT)
                   (or_introl eq_refl) eq_refl _ eq_refl _) _).
  - apply list_elem_of_further, list_elem_of_here.
  - vm_compute. reflexivity.
  - reflexivity.
Defined.

(** ** Request aliases *)

Lemma or_truthy a b : Py.truthy a = true → Py.or a b = a.
Proof. unfold Py.or. by intros ->. Qed.

Lemma or_falsy a b : Py.truthy a = false → Py.or a b = b.
Proof. unfold Py.or. by intros ->. Qed.

Lemma candidate_of_education_alias payload v :
  Py.truthy v = true → Py.truthy (Py.get payload "education") = false →
  candidate_of (<["education_level" := v]> payload)
  = candidate_of (<["education" := v]> payload).
Proof.
  intros Hv Hp. unfold candidate_of.
  repeat (rewrite get_insert_ne by done). rewrite !get_insert_eq.
  repeat (rewrite get_insert_ne by done).
  by rewrite (or_falsy _ v Hp), (or_truthy v _ Hv).
Qed.

Lemma candidate_of_sector_alias payload v :
  Py.truthy v = true → Py.truthy (Py.get payload "sector") = false →
  candidate_of (<["sector_interest" := v]> payload)
  = candidate_of (<["sector" := v]> payload).
Proof.
  intros Hv Hp. unfold candidate_of.
  repeat (rewrite get_insert_ne by done). rewrite !get_insert_eq.
  repeat (rewrite get_insert_ne by done).
  by rewrite (or_falsy _ v Hp), (or_truthy v _ Hv).
Qed.

(** X18: [education_level] and [sector_interest] are synonyms of
    [education] and [sector]: when the request has no (truthy) value
    under the primary key, giving a truthy value under the alias instead
    produces the same response. *)
Theorem X18_request_aliases INTERNSHIPS payload v (top_k : Z) :
  Py.truthy v = true →
  (Py.truthy (Py.get payload "education") = false →
   recommend INTERNSHIPS (<["education_level" := v]> payload) top_k
   = recommend INTERNSHIPS (<["education" := v]> payload) top_k)
  ∧ (Py.truthy (Py.get payload "sector") = false →
     recommend INTERNSHIPS (<["sector_interest" := v]> payload) top_k
     = recommend INTERNSHIPS (<["sector" := v]> payload) top_k).
Proof.
  intros Hv. unfold recommend. split; intros Hp.
  - by rewrite (candidate_of_education_alias payload v Hv Hp).
  - by rewrite (candidate_of_sector_alias payload v Hv Hp).
Qed.

Lemma X18_request_aliases_witness :
  Py.truthy (VStr "B.Tech") = true
  ∧ recommend [Scenario.listing]
      (<["education_level" := VStr "B.Tech"]> (delete "education" Scenario.candidate)) 5
    = recommend [Scenario.listing]
        (<["education" := VStr "B.Tech"]> (delete "education" Scenario.candidate)) 5.
Proof.
  split; [reflexivity|].
  apply (X18_request_aliases [Scenario.listing]
           (delete "education" Scenario.candidate) (VStr "B.Tech") 5);
    reflexivity.
Defined.

(** * The catalog options *)

Section options_dicts.
Implicit Types (m : gmap string (gset string))
  (l : list (string * string * gset string)).

Lemma field_of_cases v :
  field_of v = Falsy ∨ field_of v = Untyped ∨ ∃ s, field_of v = Text s.
Proof. unfold field_of. destruct (Py.truthy v), v; eauto. Qed.

Lemma sorted_strings_spec (X : gset string) :
  Sorted String.le (sorted_strings X) ∧ NoDup (sorted_strings X)
  ∧ ∀ x, x ∈ sorted_strings X ↔ x ∈ X.
Proof.
  unfold sorted_strings.
  pose proof (merge_sort_Permutation String.le (elements X)) as Hperm.
  split_and!.
  - apply Sorted_merge_sort. apply _.
  - rewrite Hperm. apply NoDup_elements.
  - intros x. rewrite Hperm. apply elem_of_elements.
Qed.

Lemma setdefault_is_Some k m s :
  is_Some (Options.setdefault k m !! s) ↔ is_Some (m !! s) ∨ s = k.
Proof.
  unfold Options.setdefault. destruct (m !! k) eqn:Hk.
  - split; [auto|]. intros [?| ->]; [done|]. by rewrite Hk.
  - rewrite lookup_insert. case_decide as Hd.
    + subst. split; [auto|]. intros _. eauto.
    + split; [auto|]. by intros [?|?].
Qed.

Lemma setdefault_district_in k m s d :
  district_in (Options.setdefault k m) s d ↔ district_in m s d.
Proof.
  unfold Options.setdefault, district_in. destruct (m !! k) eqn:Hk; [done|].
  split.
  - intros (ds & Hds & Hd). rewrite lookup_insert in Hds.
    case_decide; [|eauto]. injection Hds as <-. by apply elem_of_empty in Hd.
  - intros (ds & Hds & Hd). exists ds. split; [|done].
    rewrite lookup_insert_ne; [done|]. intros ->. congruence.
Qed.

Lemma alter_is_Some k x m s :
  is_Some (alter (λ ds, ds ∪ {[x]}) k m !! s) ↔ is_Some (m !! s).
Proof.
  rewrite lookup_alter. case_decide; [subst|done].
  by rewrite fmap_is_Some.
Qed.

Lemma alter_district_in k x m s d :
  is_Some (m !! k) →
  district_in (alter (λ ds, ds ∪ {[x]}) k m) s d
  ↔ district_in m s d ∨ (s = k ∧ d = x).
Proof.
  intros [ks Hk]. unfold district_in. split.
  - intros (ds & Hds & Hd). rewrite lookup_alter in Hds.
    case_decide as Hsk; [subst s|eauto].
    rewrite Hk in Hds. injection Hds as <-.
    apply elem_of_union in Hd as [Hd|Hd%elem_of_singleton]; eauto.
  - intros [(ds & Hds & Hd)|[-> ->]].
    + rewrite lookup_alter. case_decide; [subst|eauto].
      rewrite Hds. eexists. split; [done|]. apply elem_of_union. by left.
    + rewrite lookup_alter_eq, Hk. eexists. split; [done|].
      apply elem_of_union. right. by apply elem_of_singleton.
Qed.

Lemma setdefault_pair_keys key l key' :
  key' ∈ (Options.setdefault_pair key l).*1 ↔ key' ∈ l.*1 ∨ key' = key.
Proof.
  unfold Options.setdefault_pair. case_bool_decide as Hin.
  - split; [auto|]. by intros [?| ->].
  - rewrite fmap_app, elem_of_app. simpl. by rewrite list_elem_of_singleton.
Qed.

Lemma setdefault_pair_NoDup key l :
  NoDup l.*1 → NoDup (Options.setdefault_pair key l).*1.
Proof.
  unfold Options.setdefault_pair. case_bool_decide as Hin; [done|].
  intros Hl. rewrite fmap_app. apply NoDup_app. split_and!; [done| |].
  - intros k Hk ->%list_elem_of_singleton. done.
  - apply NoDup_singleton.
Qed.

Lemma setdefault_pair_city_in key l s d c :
  city_in (Options.setdefault_pair key l) s d c ↔ city_in l s d c.
Proof.
  unfold Options.setdefault_pair, city_in. case_bool_decide as Hin; [done|].
  split.
  - intros (cs & [Hcs|Hcs%list_elem_of_singleton]%elem_of_app & Hc); [eauto|].
    injection Hcs as _ ->. by apply elem_of_empty in Hc.
  - intros (cs & Hcs & Hc). exists cs. split; [|done]. apply elem_of_app. auto.
Qed.

Lemma add_pair_keys key x l : (Options.add_pair key x l).*1 = l.*1.
Proof.
  unfold Options.add_pair. rewrite <- list_fmap_compose.
  apply list_fmap_ext. intros _ e _. simpl. by case_bool_decide.
Qed.

Lemma add_pair_city_in key x l s d c :
  key ∈ l.*1 →
  city_in (Options.add_pair key x l) s d c
  ↔ city_in l s d c ∨ ((s, d) = key ∧ c = x).
Proof.
  intros Hkey. unfold city_in, Options.add_pair. split.
  - intros (cs & Hcs & Hc). apply list_elem_of_fmap in Hcs as ([k cs'] & He & Hin).
    simpl in He. case_bool_decide as Hk.
    + injection He as <- ->.
      apply elem_of_union in Hc as [Hc|Hc%elem_of_singleton]; [|by right].
      left. subst key. eauto.
    + injection He as <- <-. eauto.
  - intros [(cs & Hcs & Hc)|[<- ->]].
    + destruct (decide ((s, d) = key)) as [<-|Hne].
      * exists (cs ∪ {[x]}). split; [|apply elem_of_union; by left].
        apply list_elem_of_fmap. exists ((s, d), cs). simpl.
        by rewrite bool_decide_eq_true_2.
      * exists cs. split; [|done].
        apply list_elem_of_fmap. exists ((s, d), cs). simpl.
        by rewrite bool_decide_eq_false_2.
    + apply list_elem_of_fmap in Hkey as ([k cs] & Hk & Hin). simpl in Hk.
      subst k. exists (cs ∪ {[x]}).
      split; [|apply elem_of_union; right; by apply elem_of_singleton].
      apply list_elem_of_fmap. exists ((s, d), cs). simpl.
      by rewrite bool_decide_eq_true_2.
Qed.

End options_dicts.

Section options_loop.
#[local] Set Warnings "-clear-no-such-hyp".

Ltac options_case :=
  unfold has_city, has_district, has_state, has_sector;
  repeat match goal with
  | H : field_of _ = _ |- _ => rewrite H; clear H
  end;
  rewrite ?add_pair_keys;
  rewrite ?add_pair_city_in by (apply setdefault_pair_keys; by right);
  rewrite ?setdefault_pair_keys, ?setdefault_pair_city_in;
  rewrite ?alter_is_Some;
  rewrite ?alter_district_in by (apply setdefault_is_Some; by right);
  rewrite ?setdefault_is_Some, ?setdefault_district_in;
  rewrite ?elem_of_union, ?elem_of_singleton;
  naive_solver.

(** What one pass of the loop body adds to the four collections. *)
Lemma step_adds i v v' :
  Options.step i v = Some v' →
  (∀ s, s ∈ Options.states v' ↔ s ∈ Options.states v ∨ has_state i s)
  ∧ (∀ x, x ∈ Options.sectors v' ↔ x ∈ Options.sectors v ∨ has_sector i x)
  ∧ (∀ s, is_Some (Options.districts_by_state v' !! s)
          ↔ is_Some (Options.districts_by_state v !! s) ∨ has_state i s)
  ∧ (∀ s d, district_in (Options.districts_by_state v') s d
            ↔ district_in (Options.districts_by_state v) s d
              ∨ has_district i s d)
  ∧ (NoDup (Options.cities_by_state_district v).*1 →
     NoDup (Options.cities_by_state_district v').*1)
  ∧ (∀ s d, (s, d) ∈ (Options.cities_by_state_district v').*1
            ↔ (s, d) ∈ (Options.cities_by_state_district v).*1
              ∨ has_district i s d)
  ∧ (∀ s d c, city_in (Options.cities_by_state_district v') s d c
              ↔ city_in (Options.cities_by_state_district v) s d c
                ∨ has_city i s d c).
Proof.
  unfold Options.step.
  destruct (field_of (Py.get i "state")) as [|st|] eqn:Hst;
    [|destruct (field_of (Py.get i "district")) as [|di|] eqn:Hdi;
      [|destruct (field_of (Py.get i "city")) as [|ci|] eqn:Hci|]|];
    simpl; try done;
    (destruct (field_of (Py.get i "sector")) as [|se|] eqn:Hse;
     simpl; try done; intros [= <-]; simpl;
     split_and!; try (intros; options_case)).
  all: rewrite ?add_pair_keys; try done; apply setdefault_pair_NoDup.
Qed.

Lemma step_is_Some i v : is_Some (Options.step i v) ↔ text_fields i.
Proof.
  unfold Options.step, text_fields.
  destruct (field_of (Py.get i "state")) as [|st|];
    [|destruct (field_of (Py.get i "district")) as [|di|];
      [|destruct (field_of (Py.get i "city")) as [|ci|]|]|];
    destruct (field_of (Py.get i "sector")) as [|se|]; simpl;
    split; try (intros [? [=]]); try (intros [? ?]); try done; eauto.
Qed.

Lemma loop_snoc L i :
  Options.loop (L ++ [i]) = Options.loop L ≫= Options.step i.
Proof. unfold Options.loop. by rewrite foldl_snoc. Qed.

Lemma loop_is_Some L : is_Some (Options.loop L) ↔ Forall text_fields L.
Proof.
  induction L as [|i L IH] using rev_ind.
  - split; [constructor|]. by eexists.
  - rewrite loop_snoc, Forall_app, Forall_singleton, <- IH. split.
    + intros [v Hv]. destruct (Options.loop L) as [w|]; [|done].
      simpl in Hv. split; [done|]. apply (step_is_Some i w). eauto.
    + intros [[w ->] Hi]. simpl. by apply step_is_Some.
Qed.

(** What the loop has collected once it is through the catalog. *)
Lemma loop_collects L v :
  Options.loop L = Some v →
  (∀ s, s ∈ Options.states v ↔ ∃ i, i ∈ L ∧ has_state i s)
  ∧ (∀ x, x ∈ Options.sectors v ↔ ∃ i, i ∈ L ∧ has_sector i x)
  ∧ (∀ s, is_Some (Options.districts_by_state v !! s)
          ↔ ∃ i, i ∈ L ∧ has_state i s)
  ∧ (∀ s d, district_in (Options.districts_by_state v) s d
            ↔ ∃ i, i ∈ L ∧ has_district i s d)
  ∧ NoDup (Options.cities_by_state_district v).*1
  ∧ (∀ s d, (s, d) ∈ (Options.cities_by_state_district v).*1
            ↔ ∃ i, i ∈ L ∧ has_district i s d)
  ∧ (∀ s d c, city_in (Options.cities_by_state_district v) s d c
              ↔ ∃ i, i ∈ L ∧ has_city i s d c).
Proof.
  revert v. induction L as [|i L IH] using rev_ind; intros v.
  - intros [= <-]. simpl. split_and!; try apply NoDup_nil_2; intros.
    + rewrite elem_of_empty. split; [done|]. by intros (? & ?%elem_of_nil & _).
    + rewrite elem_of_empty. split; [done|]. by intros (? & ?%elem_of_nil & _).
    + rewrite lookup_empty. split; [by intros [? ?]|].
      by intros (? & ?%elem_of_nil & _).
    + split; [by intros (? & ?%lookup_empty_Some & _)|].
      by intros (? & ?%elem_of_nil & _).
    + rewrite elem_of_nil. split; [done|]. by intros (? & ?%elem_of_nil & _).
    + split; [by intros (? & ?%elem_of_nil & _)|].
      by intros (? & ?%elem_of_nil & _).
  - rewrite loop_snoc. destruct (Options.loop L) as [w|]; [|done]. simpl.
    intros Hstep. destruct (IH w eq_refl) as (I1 & I2 & I3 & I4 & I5 & I6 & I7).
    destruct (step_adds i w v Hstep) as (S1 & S2 & S3 & S4 & S5 & S6 & S7).
    assert (∀ P : gmap string value → Prop,
              (∃ j, j ∈ L ++ [i] ∧ P j) ↔ (∃ j, j ∈ L ∧ P j) ∨ P i) as Hex.
    { intros P. split.
      - intros (j & [Hj| ->%list_elem_of_singleton]%elem_of_app & HP); eauto.
      - intros [(j & Hj & HP)|HP]; [exists j|exists i];
          (split; [apply elem_of_app|done]); [by left|right; by left]. }
    split_and!; [..|by apply S5| |]; intros;
      rewrite Hex, ?S1, ?S2, ?S3, ?S4, ?S6, ?S7, ?I1, ?I2, ?I3, ?I4, ?I6, ?I7;
      done.
Qed.

Lemma step_keys i v v' :
  Options.step i v = Some v' →
  (Options.cities_by_state_district v').*1
    = (Options.cities_by_state_district v).*1
  ∨ ∃ s d,
      has_district i s d
      ∧ ((s, d) ∉ (Options.cities_by_state_district v).*1)
      ∧ (Options.cities_by_state_district v').*1
        = (Options.cities_by_state_district v).*1 ++ [(s, d)].
Proof.
  unfold Options.step, has_district, has_state.
  destruct (field_of (Py.get i "state")) as [|st|] eqn:Hst;
    [|destruct (field_of (Py.get i "district")) as [|di|] eqn:Hdi;
      [|destruct (field_of (Py.get i "city")) as [|ci|] eqn:Hci|]|];
    simpl; try done;
    (destruct (field_of (Py.get i "sector")) as [|se|] eqn:Hse;
     simpl; try done; intros [= <-]; simpl; rewrite ?add_pair_keys;
     try (by left));
    unfold Options.setdefault_pair; case_bool_decide as Hin;
    try (by left); right; exists st, di; by rewrite fmap_app.
Qed.

Lemma pair_before_snoc L i p q : pair_before L p q → pair_before (L ++ [i]) p q.
Proof.
  intros (L1 & j & L2 & -> & Hj & Hq). exists L1, j, (L2 ++ [i]).
  split_and!; [|done..]. by rewrite <- app_assoc.
Qed.

(** The pairs are kept in the order in which the catalog first shows
    them. *)
Lemma loop_order L v :
  Options.loop L = Some v →
  ∀ ks1 q ks2 p,
    (Options.cities_by_state_district v).*1 = ks1 ++ q :: ks2 →
    p ∈ ks1 → pair_before L p q.
Proof.
  revert v. induction L as [|i L IH] using rev_ind; intros v.
  - intros [= <-] ks1 q ks2 p Hk. simpl in Hk. by destruct ks1.
  - rewrite loop_snoc. destruct (Options.loop L) as [w|] eqn:Hw; [|done].
    simpl. intros Hstep ks1 q ks2 p Hk Hp.
    destruct (step_keys i w v Hstep) as [Heq|(s & d & Hd & Hnew & Heq)].
    { apply pair_before_snoc. apply (IH w eq_refl ks1 q ks2 p); [|done].
      by rewrite <- Heq. }
    rewrite Heq in Hk.
    destruct ks2 as [|z ks2 _] using rev_ind.
    + apply (app_inj_tail _ ks1 (s, d) q) in Hk as [Hks Hq]. subst q.
      destruct (loop_collects L w Hw) as (_ & _ & _ & _ & _ & I6 & _).
      rewrite <- Hks in Hp. destruct p as [ps pd].
      apply I6 in Hp as (j & Hj & Hjp).
      apply list_elem_of_split in Hj as (L1 & L2 & ->).
      exists L1, j, (L2 ++ [i]). split_and!.
      * by rewrite <- app_assoc.
      * done.
      * intros i' Hi' Hc. apply Hnew. apply I6. exists i'.
        split; [|done]. apply elem_of_app. by left.
    + rewrite app_comm_cons, app_assoc in Hk.
      apply app_inj_tail in Hk as [Hk _].
      apply pair_before_snoc. by apply (IH w eq_refl ks1 q ks2 p).
Qed.

End options_loop.

Lemma options_inv L r :
  options L = Some r →
  ∃ v, Options.loop L = Some v
       ∧ states r = sorted_strings (Options.states v)
       ∧ sectors r = sorted_strings (Options.sectors v)
       ∧ districtsByState r = sorted_strings <$> Options.districts_by_state v
       ∧ citiesByStateDistrict r
         = foldl (λ d e, <[city_key e.1.1 e.1.2 := sorted_strings e.2]> d) ∅
             (Options.cities_by_state_district v).
Proof.
  unfold options. destruct (Options.loop L) as [v|]; [|done].
  intros [= <-]. by exists v.
Qed.

(** X19: the states and the sectors offered are in ascending order,
    without duplicates, and are exactly the truthy states and sectors of
    the listings. *)
Theorem X19_options_states_sectors L r :
  options L = Some r →
  Sorted String.le (states r) ∧ NoDup (states r)
  ∧ (∀ s, s ∈ states r ↔ ∃ i, i ∈ L ∧ has_state i s)
  ∧ Sorted String.le (sectors r) ∧ NoDup (sectors r)
  ∧ (∀ x, x ∈ sectors r ↔ ∃ i, i ∈ L ∧ has_sector i x).
Proof.
  intros (v & Hv & -> & -> & _)%options_inv.
  destruct (loop_collects L v Hv) as (I1 & I2 & _).
  destruct (sorted_strings_spec (Options.states v)) as (? & ? & Hs).
  destruct (sorted_strings_spec (Options.sectors v)) as (? & ? & Hx).
  split_and!; try done.
  - intros s. by rewrite Hs, I1.
  - intros x. by rewrite Hx, I2.
Qed.

Lemma X19_options_states_sectors_witness :
  ∃ r, options [Scenario.listing; Scenario.remote_listing] = Some r
       ∧ Sorted String.le (states r)
       ∧ ∀ s, s ∈ states r
              ↔ ∃ i, i ∈ [Scenario.listing; Scenario.remote_listing]
                     ∧ has_state i s.
Proof.
  assert (∃ r, options [Scenario.listing; Scenario.remote_listing] = Some r)
    as [r Hr] by (eexists; vm_compute; reflexivity).
  exists r. split; [exact Hr|].
  destruct (X19_options_states_sectors _ _ Hr) as (Hsorted & _ & Hmem & _).
  split; [exact Hsorted|exact Hmem].
Defined.

(** X20: [districtsByState] has an entry for every state offered and for
    nothing else; the entry of a state lists, in ascending order and
    without duplicates, exactly the truthy districts of the listings of
    that state, and is empty when there is none. *)
Theorem X20_options_districts L r :
  options L = Some r →
  (∀ s, is_Some (districtsByState r !! s) ↔ s ∈ states r)
  ∧ ∀ s ds, districtsByState r !! s = Some ds →
      Sorted String.le ds ∧ NoDup ds
      ∧ ∀ d, d ∈ ds ↔ ∃ i, i ∈ L ∧ has_district i s d.
Proof.
  intros (v & Hv & -> & _ & -> & _)%options_inv.
  destruct (loop_collects L v Hv) as (I1 & _ & I3 & I4 & _).
  split.
  - intros s. rewrite lookup_fmap, fmap_is_Some, I3.
    destruct (sorted_strings_spec (Options.states v)) as (_ & _ & Hs).
    by rewrite Hs, I1.
  - intros s ds. rewrite lookup_fmap.
    destruct (Options.districts_by_state v !! s) as [X|] eqn:HX; [|done].
    intros [= <-].
    destruct (sorted_strings_spec X) as (? & ? & Hd).
    split_and!; [done..|]. intros d. rewrite Hd, <- I4.
    unfold district_in. rewrite HX. split; [eauto|].
    by intros (? & [= <-] & ?).
Qed.

Lemma X20_options_districts_witness :
  ∃ r, options [Scenario.listing; Scenario.remote_listing] = Some r
       ∧ ∀ s, is_Some (districtsByState r !! s) ↔ s ∈ states r.
Proof.
  assert (∃ r, options [Scenario.listing; Scenario.remote_listing] = Some r)
    as [r Hr] by (eexists; vm_compute; reflexivity).
  exists r. split; [exact Hr|].
  exact (proj1 (X20_options_districts _ _ Hr)).
Defined.

Section options_cities.
Implicit Types (l : list (string * string * gset string)).

Lemma cities_response_lookup l k cs :
  cities_response l !! k = Some cs →
  ∃ s d X, ((s, d), X) ∈ l ∧ k = city_key s d ∧ cs = sorted_strings X.
Proof.
  unfold cities_response.
  induction l as [|[[s d] X] l IH] using rev_ind; [done|].
  rewrite foldl_snoc. simpl. rewrite lookup_insert. case_decide as Hk.
  - intros [= <-]. exists s, d, X. split_and!; [|done..].
    apply elem_of_app. right. by left.
  - intros (s' & d' & X' & Hin & ? & ?)%IH. exists s', d', X'.
    split_and!; [|done..]. apply elem_of_app. by left.
Qed.

Lemma cities_response_lookup_last l k cs :
  cities_response l !! k = Some cs →
  ∃ l1 s d X l2,
    l = l1 ++ ((s, d), X) :: l2 ∧ k = city_key s d
    ∧ cs = sorted_strings X
    ∧ ∀ e, e ∈ l2 → city_key e.1.1 e.1.2 ≠ k.
Proof.
  unfold cities_response.
  induction l as [|[[s d] X] l IH] using rev_ind; [done|].
  rewrite foldl_snoc. simpl. rewrite lookup_insert. case_decide as Hk.
  - intros [= <-]. exists l, s, d, X, []. split_and!; [done..|].
    by intros e ?%elem_of_nil.
  - intros (l1 & s' & d' & X' & l2 & -> & -> & -> & Hlast)%IH.
    exists l1, s', d', X', (l2 ++ [((s, d), X)]). split_and!; [|done..|].
    + by rewrite <- app_assoc.
    + intros e [He| ->%list_elem_of_singleton]%elem_of_app; [by apply Hlast|].
      done.
Qed.

Lemma cities_response_is_Some l k :
  is_Some (cities_response l !! k)
  ↔ ∃ s d, (s, d) ∈ l.*1 ∧ k = city_key s d.
Proof.
  unfold cities_response.
  induction l as [|[[s d] X] l IH] using rev_ind.
  - simpl. rewrite lookup_empty. split; [by intros [? ?]|].
    by intros (? & ? & ?%elem_of_nil & _).
  - rewrite foldl_snoc, fmap_app. simpl. rewrite lookup_insert.
    case_decide as Hk.
    + split; [|eauto]. intros _. exists s, d. split; [|done].
      apply elem_of_app. right. by left.
    + rewrite IH. split.
      * intros (s' & d' & Hin & ->). exists s', d'. split; [|done].
        apply elem_of_app. by left.
      * intros (s' & d' & [Hin|Hin%list_elem_of_singleton]%elem_of_app & ->).
        -- eauto.
        -- by injection Hin as -> ->.
Qed.

Lemma cities_response_distinct l s d X :
  (∀ s1 d1 s2 d2, (s1, d1) ∈ l.*1 → (s2, d2) ∈ l.*1 →
                  city_key s1 d1 = city_key s2 d2 → s1 = s2 ∧ d1 = d2) →
  NoDup l.*1 → ((s, d), X) ∈ l →
  cities_response l !! city_key s d = Some (sorted_strings X).
Proof.
  unfold cities_response.
  induction l as [|[[s' d'] X'] l IH] using rev_ind;
    [by intros _ _ ?%elem_of_nil|].
  intros Hinj Hnd Hin. rewrite fmap_app in Hnd, Hinj.
  apply NoDup_app in Hnd as (Hnd & Hfresh & _).
  rewrite foldl_snoc. simpl.
  apply elem_of_app in Hin as [Hin|Hin%list_elem_of_singleton].
  - assert ((s, d) ∈ l.*1) as Hkey.
    { apply list_elem_of_fmap. by exists ((s, d), X). }
    rewrite lookup_insert_ne.
    + apply IH; [|done..]. intros s1 d1 s2 d2 H1 H2.
      apply Hinj; apply elem_of_app; by left.
    + intros Heq.
      destruct (Hinj s' d' s d) as [-> ->]; [| |done|].
      * apply elem_of_app. right. by left.
      * apply elem_of_app. by left.
      * apply (Hfresh (s, d)); [done|]. by left.
  - injection Hin as -> -> ->. by rewrite lookup_insert_eq.
Qed.

Lemma NoDup_keys_functional l k X X' :
  NoDup l.*1 → (k, X) ∈ l → (k, X') ∈ l → X = X'.
Proof.
  induction l as [|[k0 X0] l IH]; simpl; [by intros _ ?%elem_of_nil|].
  intros [Hk0 Hnd]%NoDup_cons [H1|H1]%elem_of_cons [H2|H2]%elem_of_cons.
  - congruence.
  - injection H1 as -> ->. destruct Hk0.
    apply list_elem_of_fmap. by exists (k0, X').
  - injection H2 as -> ->. destruct Hk0.
    apply list_elem_of_fmap. by exists (k0, X).
  - by apply IH.
Qed.

Lemma city_in_NoDup l s d X c :
  NoDup l.*1 → ((s, d), X) ∈ l → c ∈ X ↔ city_in l s d c.
Proof.
  intros Hnd Hin. unfold city_in. split; [eauto|].
  intros (X' & Hin' & Hc).
  by rewrite (NoDup_keys_functional l (s, d) X X' Hnd Hin Hin').
Qed.

End options_cities.

(** X21: [citiesByStateDistrict] has a key for every (state, district)
    pair of the catalog, formatted as [state||district], and for nothing
    else.  Every entry lists, in ascending order and without duplicates,
    exactly the truthy cities of the listings of one pair that formats
    to its key; when several pairs format to that key, it is the pair
    that the catalog shows last: every other such pair has a listing
    before the first listing of the pair that wins.  When no two pairs of
    the catalog format to the same key, the entry of a pair lists exactly
    the cities of that pair. *)
Theorem X21_options_cities L r :
  options L = Some r →
  (∀ k, is_Some (citiesByStateDistrict r !! k)
        ↔ ∃ i s d, i ∈ L ∧ has_district i s d ∧ k = city_key s d)
  ∧ (∀ k cs, citiesByStateDistrict r !! k = Some cs →
       Sorted String.le cs ∧ NoDup cs
       ∧ ∃ s d, k = city_key s d
                ∧ (∃ i, i ∈ L ∧ has_district i s d)
                ∧ (∀ c, c ∈ cs ↔ ∃ i, i ∈ L ∧ has_city i s d c)
                ∧ ∀ s' d' j, j ∈ L → has_district j s' d' →
                    city_key s' d' = k → (s', d') ≠ (s, d) →
                    pair_before L (s', d') (s, d))
  ∧ (city_keys_distinct L →
     ∀ i s d, i ∈ L → has_district i s d →
       ∃ cs, citiesByStateDistrict r !! city_key s d = Some cs
             ∧ ∀ c, c ∈ cs ↔ ∃ j, j ∈ L ∧ has_city j s d c).
Proof.
  intros (v & Hv & _ & _ & _ & ->)%options_inv.
  destruct (loop_collects L v Hv) as (_ & _ & _ & _ & I5 & I6 & I7).
  pose proof (loop_order L v Hv) as Hord.
  fold (cities_response (Options.cities_by_state_district v)).
  set (l := Options.cities_by_state_district v) in *.
  split_and!.
  - intros k. rewrite cities_response_is_Some. split.
    + intros (s & d & (i & Hi & Hd)%I6 & ->). by exists i, s, d.
    + intros (i & s & d & Hi & Hd & ->). exists s, d. split; [|done].
      apply I6. eauto.
  - intros k cs Hlookup.
    apply cities_response_lookup_last in Hlookup
      as (l1 & s & d & X & l2 & Hl & -> & -> & Hlast).
    assert (((s, d), X) ∈ l) as Hin.
    { rewrite Hl. apply elem_of_app. right. by left. }
    destruct (sorted_strings_spec X) as (? & ? & Hc).
    split_and!; [done..|]. exists s, d. split_and!; [done| | |].
    + apply I6. apply list_elem_of_fmap. by exists ((s, d), X).
    + intros c. by rewrite Hc, (city_in_NoDup l s d X c I5 Hin), I7.
    + intros s' d' j Hj Hd' Hkey Hne.
      assert ((s', d') ∈ l.*1) as Hk' by (apply I6; eauto).
      rewrite Hl, fmap_app, fmap_cons in Hk'. simpl in Hk'.
      apply elem_of_app in Hk' as [Hk'|Hk'].
      * apply (Hord l1.*1 (s, d) l2.*1 (s', d')); [|done].
        by rewrite Hl, fmap_app, fmap_cons.
      * apply elem_of_cons in Hk' as [Hk'|Hk']; [done|].
        apply list_elem_of_fmap in Hk' as ([[s2 d2] X2] & [= -> ->] & He).
        by destruct (Hlast _ He).
  - intros Hdist i s d Hi Hd.
    assert ((s, d) ∈ l.*1) as Hkey by (apply I6; eauto).
    apply list_elem_of_fmap in Hkey as ([k X] & Hk & Hin). simpl in Hk.
    subst k. exists (sorted_strings X). split.
    + apply cities_response_distinct; [|done..].
      intros s1 d1 s2 d2 (i1 & H1 & D1)%I6 (i2 & H2 & D2)%I6.
      by apply (Hdist i1 i2).
    + destruct (sorted_strings_spec X) as (_ & _ & Hc).
      intros c. by rewrite Hc, (city_in_NoDup l s d X c I5 Hin), I7.
Qed.

Lemma X21_options_cities_witness :
  ∃ r, options [Scenario.listing; Scenario.remote_listing] = Some r
       ∧ ∀ k, is_Some (citiesByStateDistrict r !! k)
              ↔ ∃ i s d, i ∈ [Scenario.listing; Scenario.remote_listing]
                         ∧ has_district i s d ∧ k = city_key s d.
Proof.
  assert (∃ r, options [Scenario.listing; Scenario.remote_listing] = Some r)
    as [r Hr] by (eexists; vm_compute; reflexivity).
  exists r. split; [exact Hr|].
  exact (proj1 (X21_options_cities _ _ Hr)).
Defined.

(** X22: the states, the sectors and the districts per state offered do
    not depend on the order of the catalog. *)
Theorem X22_options_order_independent L L' r :
  L ≡ₚ L' → options L = Some r →
  ∃ r', options L' = Some r'
        ∧ states r' = states r ∧ sectors r' = sectors r
        ∧ districtsByState r' = districtsByState r.
Proof.
  intros Hperm (v & Hv & -> & -> & -> & _)%options_inv.
  assert (is_Some (Options.loop L')) as [v' Hv'].
  { apply loop_is_Some. rewrite <- Hperm. apply loop_is_Some. eauto. }
  unfold options. rewrite Hv'. simpl. eexists. split; [done|]. simpl.
  destruct (loop_collects L v Hv) as (I1 & I2 & I3 & I4 & _).
  destruct (loop_collects L' v' Hv') as (J1 & J2 & J3 & J4 & _).
  assert (∀ P : gmap string value → Prop,
            (∃ i, i ∈ L' ∧ P i) ↔ (∃ i, i ∈ L ∧ P i)) as Hex.
  { intros P. by setoid_rewrite Hperm. }
  assert (Options.states v' = Options.states v) as ->.
  { apply leibniz_equiv. intros s. by rewrite I1, J1, Hex. }
  assert (Options.sectors v' = Options.sectors v) as ->.
  { apply leibniz_equiv. intros x. by rewrite I2, J2, Hex. }
  assert (Options.districts_by_state v' = Options.districts_by_state v) as ->;
    [|done].
  apply map_eq. intros s.
  destruct (Options.districts_by_state v' !! s) as [X'|] eqn:HX';
    destruct (Options.districts_by_state v !! s) as [X|] eqn:HX.
  - f_equal. apply leibniz_equiv. intros d.
    assert (d ∈ X' ↔ district_in (Options.districts_by_state v') s d) as ->.
    { unfold district_in. rewrite HX'. split; [eauto|].
      by intros (? & [= <-] & ?). }
    assert (d ∈ X ↔ district_in (Options.districts_by_state v) s d) as ->.
    { unfold district_in. rewrite HX. split; [eauto|].
      by intros (? & [= <-] & ?). }
    by rewrite I4, J4, Hex.
  - assert (is_Some (Options.districts_by_state v !! s)) as [? ?]; [|congruence].
    apply I3. apply Hex. apply J3. eauto.
  - assert (is_Some (Options.districts_by_state v' !! s)) as [? ?]; [|congruence].
    apply J3. apply Hex. apply I3. eauto.
  - done.
Qed.

Lemma X22_options_order_independent_witness :
  [Scenario.listing; Scenario.remote_listing]
    ≡ₚ [Scenario.remote_listing; Scenario.listing]
  ∧ ∃ r r',
      options [Scenario.listing; Scenario.remote_listing] = Some r
      ∧ options [Scenario.remote_listing; Scenario.listing] = Some r'
      ∧ states r' = states r.
Proof.
  assert ([Scenario.listing; Scenario.remote_listing]
            ≡ₚ [Scenario.remote_listing; Scenario.listing]) as Hperm
    by apply Permutation_swap.
  split; [exact Hperm|].
  assert (∃ r, options [Scenario.listing; Scenario.remote_listing] = Some r)
    as [r Hr] by (eexists; vm_compute; reflexivity).
  destruct (X22_options_order_independent _ _ _ Hperm Hr)
    as (r' & Hr' & Hs & _).
  exists r, r'. split_and!; assumption.
Defined.

(** X23: a listing without a truthy state and without a truthy sector
    contributes nothing to the options, whatever its district and city
    are. *)
Theorem X23_options_ignore_stateless L1 i L2 :
  field_of (Py.get i "state") = Falsy →
  field_of (Py.get i "sector") = Falsy →
  options (L1 ++ i :: L2) = options (L1 ++ L2).
Proof.
  intros Hst Hse. unfold options, Options.loop.
  rewrite !foldl_app. simpl.
  assert (∀ acc, acc ≫= Options.step i = acc) as ->; [|done].
  intros [v|]; [|done]. simpl. unfold Options.step. by rewrite Hst, Hse.
Qed.

Lemma X23_options_ignore_stateless_witness :
  field_of (Py.get (delete "state" (delete "sector" Scenario.listing)) "state")
    = Falsy
  ∧ options [Scenario.remote_listing;
             delete "state" (delete "sector" Scenario.listing);
             Scenario.listing]
    = options [Scenario.remote_listing; Scenario.listing].
Proof.
  split; [reflexivity|].
  apply (X23_options_ignore_stateless [Scenario.remote_listing]
           (delete "state" (delete "sector" Scenario.listing))
           [Scenario.listing]); reflexivity.
Defined.
